(** * typ-how: the sandboxed type-inference engine facade and the grammar cache

    A shallow embedding of [src/lib/wasmInterface.ts] (class
    [WasmTypeInference]), of the header builder it shares with the
    [useWasmLoader] hook, and of the process-wide grammar cache of the
    Monaco editor component, together with the properties the design
    document states about them; then of the hook's loader, of the stored
    sources and of the source dropdown, with further properties of that
    code. *)

From Stdlib Require Import ZArith NArith List String Ascii Lia Bool.
From stdpp Require Import base gmap sets list strings pretty.

Local Open Scope N_scope.
Set Warnings "-register-all".

(** * JavaScript strings

    A JavaScript string is a sequence of UTF-16 code units; it is modelled
    as a list of numbers.  [js] injects an ASCII literal, [jsq] does the
    same and turns every apostrophe into a double quote, so that JSON
    texts can be written as literals. *)

Abbreviation jsstring := (list N).

Definition js (s : string) : jsstring :=
  map N_of_ascii (list_ascii_of_string s).

Definition jsq (s : string) : jsstring :=
  map (fun c => if c =? 39 then 34 else c) (js s).

Definition str_eqb (a b : jsstring) : bool := bool_decide (a = b).

(** ECMAScript [WhiteSpace] and [LineTerminator] code points, the ones
    [String.prototype.trim] strips. *)
Definition is_white_space (c : N) : bool :=
  bool_decide (c ∈ [9; 10; 11; 12; 13; 32; 160; 5760; 8232; 8233; 8239; 8287; 12288; 65279])
  || ((8192 <=? c) && (c <=? 8202)).

Fixpoint trim_start (s : jsstring) : jsstring :=
  match s with
  | c :: r => if is_white_space c then trim_start r else s
  | [] => []
  end.

Definition trim_end (s : jsstring) : jsstring := rev (trim_start (rev s)).

(** [s.trim()] *)
Definition trim (s : jsstring) : jsstring := trim_end (trim_start s).

Fixpoint starts_with (p s : jsstring) : bool :=
  match p, s with
  | [], _ => true
  | a :: p', b :: s' => (a =? b) && starts_with p' s'
  | _ :: _, [] => false
  end.

(** The pieces of [s.split(sep)] for a non-empty separator: the text
    between consecutive matches, scanning from the left.  [skip] counts the
    code units of a matched separator still to be passed over and [cur]
    holds the current piece, reversed. *)
Fixpoint split_go (sep : jsstring) (skip : nat) (cur s : jsstring) : list jsstring :=
  match s with
  | [] => [rev cur]
  | c :: r =>
      match skip with
      | S k => split_go sep k cur r
      | O =>
          if starts_with sep s
          then rev cur :: split_go sep (Nat.pred (length sep)) [] r
          else split_go sep 0 (c :: cur) r
      end
  end.

(** [s.split(sep, limit)]: all the pieces are computed and the array is
    then cut to its first [limit] entries. *)
Definition js_split (sep : jsstring) (limit : nat) (s : jsstring) : list jsstring :=
  take limit (split_go sep 0 [] s).

(** ** Thrown values and outcomes *)

(** What a [catch] clause can observe of a thrown value: an [Error]
    object with its [message], or some value that is not an [Error]. *)
Inductive Thrown :=
| ErrorObj (message : jsstring)
| NonError.

Inductive Outcome (A : Type) :=
| Returned (a : A)
| Threw (x : Thrown).
Arguments Returned {A} a.
Arguments Threw {A} x.

(** ** [btoa] *)

Definition b64_alphabet : jsstring :=
  js "ABCDEFGHIJKLMNOPQRSTUVWXYZabcdefghijklmnopqrstuvwxyz0123456789+/".

Definition b64_char (i : N) : N := nth (N.to_nat i) b64_alphabet 0.

Fixpoint b64_encode (s : jsstring) : jsstring :=
  match s with
  | a :: b :: c :: r =>
      b64_char (a / 4) :: b64_char ((a mod 4) * 16 + b / 16)
        :: b64_char ((b mod 16) * 4 + c / 64) :: b64_char (c mod 64)
        :: b64_encode r
  | [a; b] =>
      [b64_char (a / 4); b64_char ((a mod 4) * 16 + b / 16);
       b64_char ((b mod 16) * 4); 61]
  | [a] => [b64_char (a / 4); b64_char ((a mod 4) * 16); 61; 61]
  | [] => []
  end.

Definition is_latin1 (s : jsstring) : bool := forallb (fun c => c <? 256) s.

(** [btoa(s)] encodes a string of code units below 256 and throws an
    [InvalidCharacterError] on any other string. *)
Definition btoa (s : jsstring) : Outcome jsstring :=
  if is_latin1 s then Returned (b64_encode s)
  else Threw (ErrorObj (js "InvalidCharacterError")).

(** * JSON values and [JSON.parse]

    [JSON.parse] is a built-in of the platform; the model follows the JSON
    grammar (ECMA-404): a lexer that reads the text one code unit at a
    time, then a stack machine over the tokens.  Both are structurally
    recursive, so parsing is total: [None] stands for the [SyntaxError]
    that [JSON.parse] throws. *)

(** A number literal, kept exactly: the value is [± mantissa * 10^exp10]. *)
Record JsNumber := { negative : bool; mantissa : N; exp10 : Z }.

(** The members of an object are kept in the order of the text; a read
    takes the last member of a name, as [JSON.parse] lets a later duplicate
    overwrite an earlier one. *)
Inductive JsValue :=
| JNull
| JBool (b : bool)
| JNum (n : JsNumber)
| JStr (s : jsstring)
| JArr (items : list JsValue)
| JObj (members : list (jsstring * JsValue)).

Inductive token :=
| TLBrace | TRBrace | TLBracket | TRBracket | TColon | TComma
| TString (s : jsstring) | TNumber (n : JsNumber)
| TTrue | TFalse | TNull.

Definition is_digit (c : N) : bool := (48 <=? c) && (c <=? 57).

Definition hex_digit (c : N) : option N :=
  if is_digit c then Some (c - 48)
  else if (65 <=? c) && (c <=? 70) then Some (c - 55)
  else if (97 <=? c) && (c <=? 102) then Some (c - 87)
  else None.

Fixpoint take_digits (cs : jsstring) (acc : N) (count : nat) : N * nat * jsstring :=
  match cs with
  | c :: r =>
      if is_digit c then take_digits r (acc * 10 + (c - 48)) (S count)
      else (acc, count, cs)
  | [] => (acc, count, [])
  end.

Definition read_exponent (neg : bool) (mant : N) (nfrac : nat) (cs : jsstring)
  : option JsNumber :=
  match cs with
  | [] => Some {| negative := neg; mantissa := mant; exp10 := - Z.of_nat nfrac |}
  | e :: r =>
      if (e =? 101) || (e =? 69) then
        let '(eneg, r1) :=
          match r with
          | 43 :: r' => (false, r')
          | 45 :: r' => (true, r')
          | _ => (false, r)
          end in
        let '(ev, k, r2) := take_digits r1 0 0 in
        match k, r2 with
        | S _, [] =>
            let ez := if eneg then (- Z.of_N ev)%Z else Z.of_N ev in
            Some {| negative := neg; mantissa := mant; exp10 := ez - Z.of_nat nfrac |}
        | _, _ => None
        end
      else None
  end.

(** A number is an optional minus sign, an integer part without a
    superfluous leading zero, an optional fraction (a dot and digits) and
    an optional exponent (e or E, an optional sign, digits). *)
Definition number_of_literal (cs : jsstring) : option JsNumber :=
  let '(neg, cs1) := match cs with 45 :: r => (true, r) | _ => (false, cs) end in
  match cs1 with
  | [] => None
  | c :: _ =>
      let '(ip, nint, cs2) := take_digits cs1 0 0 in
      match nint with
      | O => None
      | S m =>
          if (c =? 48) && negb (Nat.eqb m 0) then None
          else
            match cs2 with
            | 46 :: r2 =>
                let '(mant, nfrac, cs3) := take_digits r2 ip 0 in
                match nfrac with
                | O => None
                | S _ => read_exponent neg mant nfrac cs3
                end
            | _ => read_exponent neg ip 0 cs2
            end
      end
  end.

Definition word_token (cs : jsstring) : option token :=
  if str_eqb cs (js "true") then Some TTrue
  else if str_eqb cs (js "false") then Some TFalse
  else if str_eqb cs (js "null") then Some TNull
  else None.

Definition is_json_ws (c : N) : bool :=
  (c =? 32) || (c =? 9) || (c =? 10) || (c =? 13).

Definition is_number_char (c : N) : bool :=
  is_digit c || (c =? 45) || (c =? 43) || (c =? 46) || (c =? 101) || (c =? 69).

Definition is_letter (c : N) : bool := (97 <=? c) && (c <=? 122).

(** The lexer's mode; accumulated text is kept reversed. *)
Inductive lexmode :=
| LTop
| LString (acc : jsstring)
| LEscape (acc : jsstring)
| LUnicode (todo : nat) (code : N) (acc : jsstring)
| LNumber (acc : jsstring)
| LWord (acc : jsstring).

(** A code unit read outside of any token. *)
Definition lex_start (c : N) (toks : list token) : option (lexmode * list token) :=
  if is_json_ws c then Some (LTop, toks)
  else if c =? 123 then Some (LTop, TLBrace :: toks)
  else if c =? 125 then Some (LTop, TRBrace :: toks)
  else if c =? 91 then Some (LTop, TLBracket :: toks)
  else if c =? 93 then Some (LTop, TRBracket :: toks)
  else if c =? 58 then Some (LTop, TColon :: toks)
  else if c =? 44 then Some (LTop, TComma :: toks)
  else if c =? 34 then Some (LString [], toks)
  else if is_digit c || (c =? 45) then Some (LNumber [c], toks)
  else if is_letter c then Some (LWord [c], toks)
  else None.

(** The end of a number or of a word: its token is emitted. *)
Definition lex_flush (m : lexmode) (toks : list token) : option (list token) :=
  match m with
  | LTop => Some toks
  | LNumber acc =>
      match number_of_literal (rev acc) with
      | Some n => Some (TNumber n :: toks)
      | None => None
      end
  | LWord acc =>
      match word_token (rev acc) with
      | Some t => Some (t :: toks)
      | None => None
      end
  | _ => None
  end.

(** The character denoted by a one-letter escape: quotation mark,
    reverse solidus, solidus, b, f, n, r, t. *)
Definition unescape (c : N) : option N :=
  if c =? 34 then Some 34
  else if c =? 92 then Some 92
  else if c =? 47 then Some 47
  else if c =? 98 then Some 8
  else if c =? 102 then Some 12
  else if c =? 110 then Some 10
  else if c =? 114 then Some 13
  else if c =? 116 then Some 9
  else None.

Fixpoint lex (m : lexmode) (cs : jsstring) (toks : list token) : option (list token) :=
  match cs with
  | [] => option_map (@rev token) (lex_flush m toks)
  | c :: r =>
      match m with
      | LTop =>
          match lex_start c toks with
          | Some (m', toks') => lex m' r toks'
          | None => None
          end
      | LString acc =>
          if c =? 34 then lex LTop r (TString (rev acc) :: toks)
          else if c =? 92 then lex (LEscape acc) r toks
          else if c <? 32 then None
          else lex (LString (c :: acc)) r toks
      | LEscape acc =>
          if c =? 117 then lex (LUnicode 4 0 acc) r toks
          else
            match unescape c with
            | Some d => lex (LString (d :: acc)) r toks
            | None => None
            end
      | LUnicode todo code acc =>
          match hex_digit c with
          | Some d =>
              match todo with
              | S (S k) => lex (LUnicode (S k) (code * 16 + d) acc) r toks
              | _ => lex (LString ((code * 16 + d) :: acc)) r toks
              end
          | None => None
          end
      | LNumber acc =>
          if is_number_char c then lex (LNumber (c :: acc)) r toks
          else
            match lex_flush m toks with
            | Some toks1 =>
                match lex_start c toks1 with
                | Some (m', toks') => lex m' r toks'
                | None => None
                end
            | None => None
            end
      | LWord acc =>
          if is_letter c then lex (LWord (c :: acc)) r toks
          else
            match lex_flush m toks with
            | Some toks1 =>
                match lex_start c toks1 with
                | Some (m', toks') => lex m' r toks'
                | None => None
                end
            | None => None
            end
      end
  end.

(** The parser keeps the enclosing containers on a stack: an array with
    the elements read so far, or an object with its members and the name
    whose value is being read (both reversed). *)
Inductive frame :=
| FArr (acc : list JsValue)
| FObj (acc : list (jsstring * JsValue)) (key : jsstring).

Inductive pstate :=
| PValue (stk : list frame)
| PArrStart (stk : list frame)
| PArrNext (acc : list JsValue) (stk : list frame)
| PObjStart (stk : list frame)
| PKey (acc : list (jsstring * JsValue)) (stk : list frame)
| PColon (acc : list (jsstring * JsValue)) (key : jsstring) (stk : list frame)
| PObjNext (acc : list (jsstring * JsValue)) (stk : list frame)
| PDone (v : JsValue).

(** A value is complete: it goes into the innermost open container. *)
Definition complete (v : JsValue) (stk : list frame) : pstate :=
  match stk with
  | [] => PDone v
  | FArr acc :: s => PArrNext (v :: acc) s
  | FObj acc k :: s => PObjNext ((k, v) :: acc) s
  end.

Definition expect_value (t : token) (stk : list frame) : option pstate :=
  match t with
  | TNull => Some (complete JNull stk)
  | TTrue => Some (complete (JBool true) stk)
  | TFalse => Some (complete (JBool false) stk)
  | TNumber n => Some (complete (JNum n) stk)
  | TString s => Some (complete (JStr s) stk)
  | TLBracket => Some (PArrStart stk)
  | TLBrace => Some (PObjStart stk)
  | _ => None
  end.

Definition pstep (st : pstate) (t : token) : option pstate :=
  match st, t with
  | PValue stk, _ => expect_value t stk
  | PArrStart stk, TRBracket => Some (complete (JArr []) stk)
  | PArrStart stk, _ => expect_value t (FArr [] :: stk)
  | PArrNext acc stk, TComma => Some (PValue (FArr acc :: stk))
  | PArrNext acc stk, TRBracket => Some (complete (JArr (rev acc)) stk)
  | PObjStart stk, TRBrace => Some (complete (JObj []) stk)
  | PObjStart stk, TString k => Some (PColon [] k stk)
  | PKey acc stk, TString k => Some (PColon acc k stk)
  | PColon acc k stk, TColon => Some (PValue (FObj acc k :: stk))
  | PObjNext acc stk, TComma => Some (PKey acc stk)
  | PObjNext acc stk, TRBrace => Some (complete (JObj (rev acc)) stk)
  | _, _ => None
  end.

Fixpoint parse_tokens (st : pstate) (ts : list token) : option JsValue :=
  match ts with
  | [] => match st with PDone v => Some v | _ => None end
  | t :: r =>
      match pstep st t with
      | Some st' => parse_tokens st' r
      | None => None
      end
  end.

(** [JSON.parse(text)]; [None] is the thrown [SyntaxError]. *)
Definition JSON_parse (text : jsstring) : option JsValue :=
  match lex LTop text [] with
  | Some ts => parse_tokens (PValue []) ts
  | None => None
  end.

(** ** Reading a property and truthiness *)

(** A number literal denotes the double nearest to it; that double is zero
    exactly when the literal's magnitude is at most 2^-1075, half of the
    least positive double. *)
Definition is_zero_number (n : JsNumber) : bool :=
  if mantissa n =? 0 then true
  else if (0 <=? exp10 n)%Z then false
  else mantissa n * 2 ^ 1075 <=? 10 ^ Z.to_N (- exp10 n).

(** [ToBoolean] on a parsed value. *)
Definition truthy (v : JsValue) : bool :=
  match v with
  | JNull => false
  | JBool b => b
  | JNum n => negb (is_zero_number n)
  | JStr s => negb (str_eqb s [])
  | JArr _ | JObj _ => true
  end.

Fixpoint last_member (k : jsstring) (ms : list (jsstring * JsValue)) : option JsValue :=
  match ms with
  | [] => None
  | (k', v) :: r =>
      match last_member k r with
      | Some w => Some w
      | None => if str_eqb k' k then Some v else None
      end
  end.

(** [v.steps] for a parsed value [v]: reading a property of [null] throws
    a [TypeError]; an object yields its member of that name, if any; no
    other parsed value has a property named [steps], so the read yields
    [undefined] ([None]). *)
Definition read_steps (v : JsValue) : Outcome (option JsValue) :=
  match v with
  | JNull => Threw (ErrorObj (js "Cannot read properties of null (reading 'steps')"))
  | JObj ms => Returned (last_member (js "steps") ms)
  | _ => Returned None
  end.

(** [x || []] *)
Definition or_empty_array (x : option JsValue) : JsValue :=
  match x with
  | Some v => if truthy v then v else JArr []
  | None => JArr []
  end.

(** * Source descriptors and the request headers *)

Inductive AuthType := AuthNone | AuthBearer | AuthBasic | AuthHeader | AuthPresigned.

(** [interface WasmSource]; an optional field is an [option], absent when
    [undefined]. *)
Record WasmSource := {
  source_id : jsstring;
  source_name : jsstring;
  url : jsstring;
  authType : option AuthType;
  authToken : option jsstring;
  authHeader : option jsstring;
  authUsername : option jsstring;
  authPassword : option jsstring;
  isLocal : option bool;
  createdAt : Z;
  lastUpdated : option jsstring
}.

Global Instance AuthType_eq_dec : EqDecision AuthType.
Proof. solve_decision. Defined.

(** The value of an optional string when it is truthy: defined and not
    the empty string. *)
Definition nonempty (o : option jsstring) : option jsstring :=
  match o with
  | Some (c :: r) => Some (c :: r)
  | _ => None
  end.

Abbreviation Headers := (gmap (list N) (list N)).

(** [headers[key] = value] on a plain object: the assignment to the name
    [__proto__] goes to the prototype setter, which ignores a string. *)
Definition set_header (key value : jsstring) (headers : Headers) : Headers :=
  if str_eqb key (js "__proto__") then headers else <[key := value]> headers.

Definition base_headers : Headers := {[ js "Accept" := js "application/wasm" ]}.

(** The [switch] on [authType] that adds the authentication header, the
    same text in [WasmTypeInference.initialize] (lines 160-186) and in
    [loadWasmWithAuth] of the [useWasmLoader] hook (lines 36-62). *)
Definition addAuthHeaders (source : WasmSource) (headers : Headers) : Outcome Headers :=
  match authType source with
  | Some AuthBearer =>
      match nonempty (authToken source) with
      | Some token =>
          Returned (set_header (js "Authorization") (js "Bearer " ++ token) headers)
      | None => Returned headers
      end
  | Some AuthBasic =>
      match nonempty (authUsername source), nonempty (authPassword source) with
      | Some username, Some password =>
          match btoa (username ++ js ":" ++ password) with
          | Returned credentials =>
              Returned (set_header (js "Authorization") (js "Basic " ++ credentials) headers)
          | Threw x => Threw x
          end
      | _, _ => Returned headers
      end
  | Some AuthHeader =>
      match nonempty (authHeader source) with
      | Some stored =>
          let parts := js_split (js ": ") 2 stored in
          match nonempty (parts !! 0%nat), nonempty (parts !! 1%nat) with
          | Some key, Some value => Returned (set_header (trim key) (trim value) headers)
          | _, _ => Returned headers
          end
      | None => Returned headers
      end
  | Some AuthPresigned => Returned headers
  | _ => Returned headers
  end.

(** The headers both loaders send. *)
Definition requestHeaders (source : WasmSource) : Outcome Headers :=
  addAuthHeaders source base_headers.

(** * Requests and responses *)

Record Options := { showSteps : option bool; maxDepth : option Z }.

Module InferenceRequest.
Record t := {
  algorithm : jsstring;
  variant : option jsstring;
  expression : jsstring;
  options : option Options
}.
End InferenceRequest.

Module SubtypingRequest.
Record t := {
  algorithm : jsstring;
  variant : jsstring;
  leftType : jsstring;
  rightType : jsstring;
  options : option Options
}.
End SubtypingRequest.

(** [InferenceResponse] and [SubtypingResponse] have the same shape. *)
Record Response := {
  success : bool;
  result : option JsValue;
  error : option jsstring;
  steps : option JsValue
}.

(** The argument vectors (lines 243-245, 310-312 and 378). *)
Definition inferenceArgs (request : InferenceRequest.t) : list jsstring :=
  match nonempty (InferenceRequest.variant request) with
  | Some variant =>
      [js "infer"; js "--typing"; InferenceRequest.algorithm request;
       js "--variant"; variant; InferenceRequest.expression request]
  | None =>
      [js "infer"; js "--typing"; InferenceRequest.algorithm request;
       InferenceRequest.expression request]
  end.

Definition subtypingArgs (request : SubtypingRequest.t) : list jsstring :=
  match nonempty (Some (SubtypingRequest.variant request)) with
  | Some variant =>
      [js "infer"; js "--subtyping"; SubtypingRequest.algorithm request;
       js "--variant"; variant;
       SubtypingRequest.leftType request; SubtypingRequest.rightType request]
  | None =>
      [js "infer"; js "--subtyping"; SubtypingRequest.algorithm request;
       SubtypingRequest.leftType request; SubtypingRequest.rightType request]
  end.

Definition metadataArgs : list jsstring := [js "infer"; js "--meta"].

(** ** Decoding the captured output *)

Definition text_result (output : jsstring) : Response :=
  {| success := true;
     result := Some (JObj [(js "type", JStr output)]);
     error := None;
     steps := Some (JArr []) |}.

(** Lines 265-282 of [runInference], the same text as lines 332-349 of
    [runSubtyping]: the inner [try] parses the trimmed buffer and reads
    [result.steps]; whatever it throws lands in the text fallback. *)
Definition decodeResult (outputBuffer : jsstring) : Response :=
  let output := trim outputBuffer in
  match JSON_parse output with
  | Some parsed =>
      match read_steps parsed with
      | Returned s =>
          {| success := true;
             result := Some parsed;
             error := None;
             steps := Some (or_empty_array s) |}
      | Threw _ => text_result output
      end
  | None => text_result output
  end.

(** Lines 398-404 of [getMetadata]: a parse failure is replaced by a new
    error. *)
Definition decodeMetadata (outputBuffer : jsstring) : Outcome JsValue :=
  let output := trim outputBuffer in
  match JSON_parse output with
  | Some parsed => Returned parsed
  | None => Threw (ErrorObj (js "Failed to parse metadata JSON from WASM"))
  end.

(** * The engine: state, suspension points and programs *)

(** Compiled modules and instances are opaque handles. *)
Abbreviation WasmModule := nat.
Abbreviation Instance := nat.

(** The private fields of [class WasmTypeInference]. *)
Record Engine := {
  wasmModule : option WasmModule;
  wasmSource : WasmSource;
  isInitialized : bool;
  outputBuffer : jsstring;
  activeInstances : gset nat;
  maxConcurrentInstances : nat
}.

Definition set_wasmModule (m : option WasmModule) (e : Engine) : Engine :=
  {| wasmModule := m; wasmSource := wasmSource e; isInitialized := isInitialized e;
     outputBuffer := outputBuffer e; activeInstances := activeInstances e;
     maxConcurrentInstances := maxConcurrentInstances e |}.

Definition set_wasmSource (s : WasmSource) (e : Engine) : Engine :=
  {| wasmModule := wasmModule e; wasmSource := s; isInitialized := isInitialized e;
     outputBuffer := outputBuffer e; activeInstances := activeInstances e;
     maxConcurrentInstances := maxConcurrentInstances e |}.

Definition set_isInitialized (b : bool) (e : Engine) : Engine :=
  {| wasmModule := wasmModule e; wasmSource := wasmSource e; isInitialized := b;
     outputBuffer := outputBuffer e; activeInstances := activeInstances e;
     maxConcurrentInstances := maxConcurrentInstances e |}.

Definition set_outputBuffer (s : jsstring) (e : Engine) : Engine :=
  {| wasmModule := wasmModule e; wasmSource := wasmSource e; isInitialized := isInitialized e;
     outputBuffer := s; activeInstances := activeInstances e;
     maxConcurrentInstances := maxConcurrentInstances e |}.

Definition set_activeInstances (a : gset nat) (e : Engine) : Engine :=
  {| wasmModule := wasmModule e; wasmSource := wasmSource e; isInitialized := isInitialized e;
     outputBuffer := outputBuffer e; activeInstances := a;
     maxConcurrentInstances := maxConcurrentInstances e |}.

Definition set_lastUpdated (v : option jsstring) (s : WasmSource) : WasmSource :=
  {| source_id := source_id s; source_name := source_name s; url := url s;
     authType := authType s; authToken := authToken s; authHeader := authHeader s;
     authUsername := authUsername s; authPassword := authPassword s;
     isLocal := isLocal s; createdAt := createdAt s; lastUpdated := v |}.

(** The engine as the constructor leaves it (lines 60-78); [now] is what
    [Date.now()] returned. *)
Definition new_engine (wasmUrl : jsstring) (now : Z) : Engine :=
  {| wasmModule := None;
     wasmSource := {| source_id := js "default";
                      source_name := js "Type Inference Zoo (Default)";
                      url := wasmUrl;
                      authType := Some AuthNone;
                      authToken := None; authHeader := None;
                      authUsername := None; authPassword := None;
                      isLocal := Some false; createdAt := now; lastUpdated := None |};
     isInitialized := false;
     outputBuffer := [];
     activeInstances := ∅;
     maxConcurrentInstances := 2 |}.

(** The operations on the set of active instances. *)
Inductive PoolOp := PoolAdd (i : Instance) | PoolDelete (i : Instance) | PoolClear.

Global Instance PoolOp_eq_dec : EqDecision PoolOp.
Proof. solve_decision. Defined.

Definition pool_apply (op : PoolOp) (s : gset nat) : gset nat :=
  match op with
  | PoolAdd i => {[i]} ∪ s
  | PoolDelete i => s ∖ {[i]}
  | PoolClear => ∅
  end.

(** What [fetch] resolves with, as far as the engine looks at it. *)
Record FetchResponse := {
  ok : bool;
  status : N;
  statusText : jsstring;
  lastModified : option jsstring
}.

(** The calls that leave the engine.  [Fetch], [ArrayBuffer], [Compile],
    [Sleep] (the 100 ms timer) and [Instantiate] are awaited: the caller is
    suspended and other code may run before it resumes.  [Tick] is the
    resumption after an awaited call of one of the engine's own [async]
    methods.  [Start] is the synchronous [wasi.start].  [StoreSource] is
    [updateSourceInStorage]: it runs at once and swallows its own
    failures, but it dispatches an event, and what the listeners do to
    the engine is accounted for like what other code does during a
    suspension. *)
Inductive Call :=
| Fetch (target : jsstring) (headers : Headers)
| ArrayBuffer
| Compile (bytes : list N)
| Sleep (ms : N)
| Instantiate (module : option WasmModule) (args : list jsstring)
| Tick
| Start (instance : Instance)
| StoreSource (source : WasmSource).

Definition Answer (c : Call) : Type :=
  match c with
  | Fetch _ _ => Outcome FetchResponse
  | ArrayBuffer => Outcome (list N)
  | Compile _ => Outcome WasmModule
  | Instantiate _ _ => Outcome Instance
  | Start _ => (list jsstring * option Thrown)%type
  | Sleep _ | Tick | StoreSource _ => unit
  end.

Definition suspends (c : Call) : bool :=
  match c with
  | Start _ => false
  | _ => true
  end.

(** A method body: it returns, throws, reads or writes the fields,
    operates on the pool, or makes a call and goes on with its answer. *)
Inductive Prog (A : Type) : Type :=
| Ret (a : A)
| Throw (x : Thrown)
| Get (k : Engine -> Prog A)
| Put (e : Engine) (k : Prog A)
| Pool (op : PoolOp) (k : Prog A)
| Ext (c : Call) (k : Answer c -> Prog A).
Arguments Ret {A} a.
Arguments Throw {A} x.
Arguments Get {A} k.
Arguments Put {A} e k.
Arguments Pool {A} op k.
Arguments Ext {A} c k.

Fixpoint bind {A B} (p : Prog A) (f : A -> Prog B) : Prog B :=
  match p with
  | Ret a => f a
  | Throw x => Throw x
  | Get k => Get (fun e => bind (k e) f)
  | Put e k => Put e (bind k f)
  | Pool op k => Pool op (bind k f)
  | Ext c k => Ext c (fun a => bind (k a) f)
  end.

Global Instance Prog_ret : MRet Prog := fun _ a => Ret a.
Global Instance Prog_bind : MBind Prog := fun _ _ f p => bind p f.

(** [try { p } catch (x) { h x }] *)
Fixpoint try_catch {A} (p : Prog A) (h : Thrown -> Prog A) : Prog A :=
  match p with
  | Ret a => Ret a
  | Throw x => h x
  | Get k => Get (fun e => try_catch (k e) h)
  | Put e k => Put e (try_catch k h)
  | Pool op k => Pool op (try_catch k h)
  | Ext c k => Ext c (fun a => try_catch (k a) h)
  end.

(** [try { p } finally { f }]: [f] runs on both exits, then the exit of
    [p] is taken again. *)
Definition try_finally {A} (p : Prog A) (f : Prog unit) : Prog A :=
  r ← try_catch (a ← p; Ret (Returned a)) (fun x => Ret (Threw x));
  f;;
  match r with
  | Returned a => Ret a
  | Threw x => Throw x
  end.

Definition get : Prog Engine := Get Ret.
Definition modify (f : Engine -> Engine) : Prog unit := Get (fun e => Put (f e) (Ret tt)).
Definition pool (op : PoolOp) : Prog unit := Pool op (Ret tt).
Definition call (c : Call) : Prog (Answer c) := Ext c Ret.

(** A synchronous computation that may throw. *)
Definition lift {A} (o : Outcome A) : Prog A :=
  match o with
  | Returned a => Ret a
  | Threw x => Throw x
  end.

(** [await c] for a call that resolves or rejects. *)
Definition await {A} (c : Call) (as_outcome : Answer c -> Outcome A) : Prog A :=
  r ← call c; lift (as_outcome r).

(** [await m(...)] for an [async] method [m] of the engine: the body runs
    at once up to its first suspension; once it has returned or thrown,
    the caller resumes on a later turn. *)
Definition await_method {A} (p : Prog A) : Prog A :=
  try_catch (a ← p; call Tick;; Ret a) (fun x => call Tick;; Throw x).

(** * The methods of [WasmTypeInference] *)

Definition clearActiveInstances (e : Engine) : Engine :=
  set_activeInstances (pool_apply PoolClear (activeInstances e)) e.

(** The test of [updateWasmSource] (lines 98-103): some compared field
    is not strictly equal. *)
Definition source_differs (current newSource : WasmSource) : bool :=
  bool_decide (url current ≠ url newSource)
  || bool_decide (authType current ≠ authType newSource)
  || bool_decide (authToken current ≠ authToken newSource)
  || bool_decide (authHeader current ≠ authHeader newSource)
  || bool_decide (authUsername current ≠ authUsername newSource)
  || bool_decide (authPassword current ≠ authPassword newSource).

Definition updateWasmSource (newSource : WasmSource) (e : Engine) : Engine :=
  if source_differs (wasmSource e) newSource then
    set_isInitialized false
      (clearActiveInstances (set_wasmModule None (set_wasmSource newSource e)))
  else e.

Definition destroy (e : Engine) : Engine :=
  set_outputBuffer []
    (set_isInitialized false (clearActiveInstances (set_wasmModule None e))).

(** Lines 126-144. *)
Definition createInstance (args : list jsstring) : Prog Instance :=
  e ← get;
  match wasmModule e with
  | None => Throw (ErrorObj (js "WASM module not loaded"))
  | Some _ =>
      (if bool_decide (maxConcurrentInstances e ≤ size (activeInstances e))%nat
       then call (Sleep 100)
       else Ret tt);;
      e' ← get;
      instance ← await (Instantiate (wasmModule e') args) id;
      pool (PoolAdd instance);;
      Ret instance
  end.

(** Lines 146-148. *)
Definition cleanupInstance (instance : Instance) : Prog unit :=
  pool (PoolDelete instance).

(** Lines 150-224. *)
Definition initialize : Prog bool :=
  e ← get;
  if isInitialized e then Ret true
  else
    try_catch
      (headers ← lift (requestHeaders (wasmSource e));
       response ← await (Fetch (url (wasmSource e)) headers) id;
       if negb (ok response) then
         Throw (ErrorObj (js "Failed to fetch WASM: " ++ js (pretty (status response))
                            ++ js " " ++ statusText response))
       else
         wasmBytes ← await ArrayBuffer id;
         match nonempty (lastModified response) with
         | Some stamp =>
             modify (fun e1 => set_wasmSource (set_lastUpdated (Some stamp) (wasmSource e1)) e1);;
             e1 ← get;
             call (StoreSource (wasmSource e1))
         | None => Ret tt
         end;;
         compiled ← await (Compile wasmBytes) id;
         modify (set_wasmModule (Some compiled));;
         modify (set_isInitialized true);;
         Ret true)
      (fun _ => Ret false).

(** The preamble of the three run methods (lines 227-232, 294-299 and
    362-367); it stands before their [try]. *)
Definition ensureInitialized : Prog unit :=
  e ← get;
  if isInitialized e then Ret tt
  else
    initialized ← await_method initialize;
    if (initialized : bool) then Ret tt
    else Throw (ErrorObj (js "WASM module not available")).

(** [wasi.start(instance)]: the sandbox runs to its end or to a trap;
    every line it writes to descriptor 1 goes through the callback of
    lines 250-252, which appends it and a newline to the buffer. *)
Definition wasiStart (instance : Instance) : Prog unit :=
  r ← call (Start instance);
  modify (fun e => set_outputBuffer
                     (foldl (fun buf msg => buf ++ msg ++ [10]) (outputBuffer e) r.1) e);;
  match r.2 with
  | Some x => Throw x
  | None => Ret tt
  end.

(** The start of the [try] body of the three run methods (lines 235-262,
    302-329 and 370-395): the module check, the reset of the buffer, the
    instance and its guarded run. *)
Definition invoke (args : list jsstring) : Prog unit :=
  e ← get;
  match wasmModule e with
  | None => Throw (ErrorObj (js "WASM module not loaded"))
  | Some _ =>
      modify (set_outputBuffer []);;
      instance ← await_method (createInstance args);
      try_finally (wasiStart instance) (cleanupInstance instance)
  end.

(** The response of the outer [catch] (lines 283-290 and 350-357). *)
Definition failure (x : Thrown) : Response :=
  {| success := false;
     result := None;
     error := Some (match x with
                    | ErrorObj message => message
                    | NonError => js "Unknown WASM error"
                    end);
     steps := None |}.

(** Lines 226-291. *)
Definition runInference (request : InferenceRequest.t) : Prog Response :=
  ensureInitialized;;
  try_catch
    (invoke (inferenceArgs request);;
     e ← get;
     Ret (decodeResult (outputBuffer e)))
    (fun x => Ret (failure x)).

(** Lines 293-358. *)
Definition runSubtyping (request : SubtypingRequest.t) : Prog Response :=
  ensureInitialized;;
  try_catch
    (invoke (subtypingArgs request);;
     e ← get;
     Ret (decodeResult (outputBuffer e)))
    (fun x => Ret (failure x)).

(** Lines 361-410; the outer [catch] logs and throws the same value. *)
Definition getMetadata : Prog JsValue :=
  ensureInitialized;;
  try_catch
    (invoke metadataArgs;;
     e ← get;
     lift (decodeMetadata (outputBuffer e)))
    (fun x => Throw x).

(** * Running a method *)

(** The world around one invocation: the answer to its [n]-th call, and
    what the code that ran while it was suspended there did to the
    engine. *)
Record World := {
  answer : nat -> forall c : Call, Answer c;
  interfere : nat -> Engine -> Engine
}.

Definition pool_step (op : PoolOp) (e : Engine) : Engine :=
  set_activeInstances (pool_apply op (activeInstances e)) e.

(** What an invocation did, in order: an operation on the pool, or a
    call together with the value it threw or was rejected with, if any
    (for [Start], the trap of the sandbox). *)
Inductive Step :=
| Did (op : PoolOp)
| Called (c : Call) (thrown : option Thrown).

Definition thrown_by {A} (o : Outcome A) : option Thrown :=
  match o with
  | Returned _ => None
  | Threw x => Some x
  end.

Definition observe (c : Call) : Answer c -> option Thrown :=
  match c return Answer c -> option Thrown with
  | Fetch _ _ => thrown_by
  | ArrayBuffer => thrown_by
  | Compile _ => thrown_by
  | Instantiate _ _ => thrown_by
  | Start _ => snd
  | Sleep _ | Tick | StoreSource _ => fun _ => None
  end.

(** [run w n p e tr] runs [p] to its end from engine [e], [n] calls and
    the steps [tr] into the invocation; it yields the final engine, the
    steps in the order taken, and the outcome. *)
Fixpoint run {A} (w : World) (n : nat) (p : Prog A) (e : Engine) (tr : list Step)
  : Engine * list Step * Outcome A :=
  match p with
  | Ret a => (e, tr, Returned a)
  | Throw x => (e, tr, Threw x)
  | Get k => run w n (k e) e tr
  | Put e' k => run w n k e' tr
  | Pool op k => run w n k (pool_step op e) (tr ++ [Did op])
  | Ext c k =>
      run w (S n) (k (answer w n c)) (if suspends c then interfere w n e else e)
        (tr ++ [Called c (observe c (answer w n c))])
  end.

Definition invocation {A} (w : World) (p : Prog A) (e : Engine)
  : Engine * list Step * Outcome A :=
  run w 0 p e [].

(** The pool operations among the steps. *)
Definition pool_ops (tr : list Step) : list PoolOp :=
  omap (fun s => match s with Did op => Some op | Called _ _ => None end) tr.

(** * Several invocations on one engine

    Invocations overlap at their suspension points only: a piece of code
    between two suspensions runs without interruption.  A pool state is
    the engine and the invocations in progress, each as the rest of its
    method body, stopped at the awaited call. *)

Abbreviation Oracle := (forall c : Call, Answer c).

(** Run up to the next suspension, or to the end. *)
Fixpoint settle {A} (o : Oracle) (p : Prog A) (e : Engine) : Engine * Prog A :=
  match p with
  | Get k => settle o (k e) e
  | Put e' k => settle o k e'
  | Pool op k => settle o k (pool_step op e)
  | Ext c k => if suspends c then (e, Ext c k) else settle o (k (o c)) e
  | Ret a => (e, Ret a)
  | Throw x => (e, Throw x)
  end.

(** The awaited call completes with the oracle's answer. *)
Definition resume {A} (o : Oracle) (p : Prog A) (e : Engine) : Engine * Prog A :=
  match p with
  | Ext c k => settle o (k (o c)) e
  | _ => (e, p)
  end.

Record PoolState := {
  engine : Engine;
  tasks : list (Prog Response)
}.

Inductive PoolEvent :=
| Invoke (p : Prog Response) (o : Oracle)
| Resume (i : nat) (o : Oracle).

Definition pool_event (s : PoolState) (ev : PoolEvent) : PoolState :=
  match ev with
  | Invoke p o =>
      let '(e', p') := settle o p (engine s) in
      {| engine := e'; tasks := tasks s ++ [p'] |}
  | Resume i o =>
      match tasks s !! i with
      | Some p =>
          let '(e', p') := resume o p (engine s) in
          {| engine := e'; tasks := <[i := p']> (tasks s) |}
      | None => s
      end
  end.

Definition pool_events (s : PoolState) (evs : list PoolEvent) : PoolState :=
  foldl pool_event s evs.

(** * The grammar cache of the editor component

    [grammarCache] (lines 11-19 of the component) is shared by all editor
    instances; [loadTextMateGrammar] (lines 67-131) reads and fills it.
    What the call [wasmInference.requestTextMateGrammar(...)] of line 102
    does is an input of the model: it throws at once, before anything is
    awaited, or it returns a value or promise whose outcome comes later.
    The engine of [src/lib/wasmInterface.ts] has no method of that name,
    so with it the call throws a [TypeError] at once.  The outcomes of
    [loadWASM] and [registry.loadGrammar] are inputs too. *)

Module GrammarCache.

Record SyntaxHighlightingData := { language : jsstring; grammar : JsValue }.

(** The promise made at line 100 together with the progress of the
    [async] function behind it: awaiting the engine (line 102), inside
    [registerTextMateGrammar] awaiting [loadWASM] (line 139) or
    [loadGrammar] (line 158), about to resume at line 112 or in the
    [catch] of line 114, and settled. *)
Inductive LoadState :=
| Requesting
| LoadingOnigasm (r : SyntaxHighlightingData)
| LoadingGrammar (r : SyntaxHighlightingData)
| Registered (r : SyntaxHighlightingData)
| RegisterFailed (x : Thrown)
| Fulfilled (r : SyntaxHighlightingData)
| Rejected (x : Thrown).

(** A call of [loadTextMateGrammar]: awaiting promise [p], or done with
    the value it passed to [onSyntaxHighlightingChange] and the promise
    it had awaited, if any. *)
Inductive Caller :=
| Waiting (p : nat)
| Done (awaited : option nat) (reported : option SyntaxHighlightingData).

Record State := {
  promise : option nat;
  data : option SyntaxHighlightingData;
  registry : bool;
  promises : list LoadState;
  callers : list Caller
}.

Definition initial : State :=
  {| promise := None; data := None; registry := false; promises := []; callers := [] |}.

(** [Mount enabled thrown]: an editor calls [loadTextMateGrammar];
    [thrown] is what the call of line 102 throws at once, should this
    call of [loadTextMateGrammar] get to make it, and [None] if it
    returns. *)
Inductive Event :=
| Mount (enableSyntaxHighlighting : bool) (thrown : option Thrown)
| RequestSettled (p : nat) (r : Outcome SyntaxHighlightingData)
| OnigasmSettled (p : nat) (failure : option Thrown)
| GrammarSettled (p : nat) (failure : option Thrown)
| LoadResumed (p : nat)
| CallerResumed (i : nat).

Definition add_caller (c : Caller) (s : State) : State :=
  {| promise := promise s; data := data s; registry := registry s;
     promises := promises s; callers := callers s ++ [c] |}.

Definition set_load (p : nat) (l : LoadState) (s : State) : State :=
  {| promise := promise s; data := data s; registry := registry s;
     promises := <[p := l]> (promises s); callers := callers s |}.

(** The [catch] of lines 114-117: the cache forgets the promise and the
    promise is rejected. *)
Definition fail_load (p : nat) (x : Thrown) (s : State) : State :=
  {| promise := None; data := data s; registry := registry s;
     promises := <[p := Rejected x]> (promises s); callers := callers s |}.

(** Lines 112-113: the data is stored and the promise fulfilled. *)
Definition finish_load (p : nat) (r : SyntaxHighlightingData) (s : State) : State :=
  {| promise := promise s; data := Some r; registry := registry s;
     promises := <[p := Fulfilled r]> (promises s); callers := callers s |}.

(** The promise the [async] function of lines 100-118 returns at once.
    When the call of line 102 throws, the [catch] of line 114 runs before
    the function returns: it sets the cached promise to null, which it
    is already, and the function returns a rejected promise. *)
Definition started (thrown : option Thrown) : LoadState :=
  match thrown with
  | Some x => Rejected x
  | None => Requesting
  end.

(** Lines 67-118, up to the first suspension of the call.  The promise
    the [async] function returned is assigned to the cache at line 100
    when the function has returned, also when it is already rejected. *)
Definition loadTextMateGrammar (enableSyntaxHighlighting : bool) (thrown : option Thrown)
    (s : State) : State :=
  if negb enableSyntaxHighlighting then add_caller (Done None None) s
  else
    match data s with
    | Some d => add_caller (Done None (Some d)) s
    | None =>
        match promise s with
        | Some p => add_caller (Waiting p) s
        | None =>
            let p := length (promises s) in
            add_caller (Waiting p)
              {| promise := Some p; data := data s; registry := registry s;
                 promises := promises s ++ [started thrown]; callers := callers s |}
        end
    end.

Definition set_registry (s : State) : State :=
  {| promise := promise s; data := data s; registry := true;
     promises := promises s; callers := callers s |}.

(** One uninterrupted piece of code; [None] when the event cannot
    happen in the state. *)
Definition step (s : State) (ev : Event) : option State :=
  match ev with
  | Mount enabled thrown => Some (loadTextMateGrammar enabled thrown s)
  | RequestSettled p o =>
      match promises s !! p, o with
      | Some Requesting, Returned r =>
          Some (set_load p (if registry s then LoadingGrammar r else LoadingOnigasm r) s)
      | Some Requesting, Threw x => Some (fail_load p x s)
      | _, _ => None
      end
  | OnigasmSettled p failure =>
      match promises s !! p, failure with
      | Some (LoadingOnigasm r), None => Some (set_load p (LoadingGrammar r) (set_registry s))
      | Some (LoadingOnigasm r), Some x => Some (set_load p (RegisterFailed x) s)
      | _, _ => None
      end
  | GrammarSettled p failure =>
      match promises s !! p, failure with
      | Some (LoadingGrammar r), None => Some (set_load p (Registered r) s)
      | Some (LoadingGrammar r), Some x => Some (set_load p (RegisterFailed x) s)
      | _, _ => None
      end
  | LoadResumed p =>
      match promises s !! p with
      | Some (Registered r) => Some (finish_load p r s)
      | Some (RegisterFailed x) => Some (fail_load p x s)
      | _ => None
      end
  | CallerResumed i =>
      match callers s !! i with
      | Some (Waiting p) =>
          match promises s !! p with
          | Some (Fulfilled r) =>
              Some {| promise := promise s; data := data s; registry := registry s;
                      promises := promises s;
                      callers := <[i := Done (Some p) (Some r)]> (callers s) |}
          | Some (Rejected x) =>
              Some {| promise := promise s; data := data s; registry := registry s;
                      promises := promises s;
                      callers := <[i := Done (Some p) None]> (callers s) |}
          | _ => None
          end
      | _ => None
      end
  end.

Inductive reachable : State -> Prop :=
| reach_initial : reachable initial
| reach_step s ev s' : reachable s -> step s ev = Some s' -> reachable s'.

Definition settled (l : LoadState) : bool :=
  match l with
  | Fulfilled _ | Rejected _ => true
  | _ => false
  end.

Definition is_rejected (l : LoadState) : bool :=
  match l with
  | Rejected _ => true
  | _ => false
  end.

(** The number of times the engine has been asked for the grammar: the
    request is made once for each promise, when it is created. *)
Definition loader_calls (s : State) : nat := length (promises s).

(** 1 when the cached promise is pending or fulfilled, 0 when there is
    none or it is rejected. *)
Definition live (s : State) : nat :=
  match promise s with
  | Some p =>
      match promises s !! p with
      | Some l => if is_rejected l then 0 else 1
      | None => 0
      end
  | None => 0
  end.

Fixpoint count_rejected (ls : list LoadState) : nat :=
  match ls with
  | [] => 0
  | l :: r => (if is_rejected l then 1 else 0) + count_rejected r
  end.

Definition failed_loads (s : State) : nat := count_rejected (promises s).

Fixpoint replay (s : State) (evs : list Event) : option State :=
  match evs with
  | [] => Some s
  | ev :: r =>
      match step s ev with
      | Some s' => replay s' r
      | None => None
      end
  end.

(** What a call made while promise [p] is pending becomes. *)
Definition joined (p : nat) (enableSyntaxHighlighting : bool) : Caller :=
  if enableSyntaxHighlighting then Waiting p else Done None None.

(** A caller agrees with the promise it awaits or awaited: the promise
    exists, and a finished caller reported what the promise settled
    with, or without a promise the cached data. *)
Definition caller_ok (ps : list LoadState) (d : option SyntaxHighlightingData) (c : Caller)
  : Prop :=
  match c with
  | Waiting p => (p < length ps)%nat
  | Done (Some p) (Some r) => ps !! p = Some (Fulfilled r)
  | Done (Some p) None => exists x, ps !! p = Some (Rejected x)
  | Done None (Some r) => d = Some r
  | Done None None => True
  end.

(** The facts about the cache that every step preserves. *)
Record invariant (s : State) : Prop := {
  inv_promise : forall p l,
    promises s !! p = Some l -> is_rejected l = false -> promise s = Some p;
  inv_cached : forall p, promise s = Some p -> (p < length (promises s))%nat;
  inv_data : forall r,
    data s = Some r <-> exists p, promises s !! p = Some (Fulfilled r);
  inv_calls : loader_calls s = (failed_loads s + live s)%nat;
  inv_callers : forall i c,
    callers s !! i = Some c -> caller_ok (promises s) (data s) c
}.

End GrammarCache.

(** * The design document's wording, for comparison with the code *)

(** "Two descriptors are the same configuration iff URL and all auth
    fields are equal." *)
Definition same_configuration (a b : WasmSource) : Prop :=
  url a = url b /\ authType a = authType b /\ authToken a = authToken b
  /\ authHeader a = authHeader b /\ authUsername a = authUsername b
  /\ authPassword a = authPassword b.

(** The encoding rules as worded: the variant is inserted whenever the
    request has one. *)
Definition spec_inferenceArgs (request : InferenceRequest.t) : list jsstring :=
  match InferenceRequest.variant request with
  | Some variant =>
      [js "infer"; js "--typing"; InferenceRequest.algorithm request;
       js "--variant"; variant; InferenceRequest.expression request]
  | None =>
      [js "infer"; js "--typing"; InferenceRequest.algorithm request;
       InferenceRequest.expression request]
  end.

Definition spec_subtypingArgs (request : SubtypingRequest.t) : list jsstring :=
  [js "infer"; js "--subtyping"; SubtypingRequest.algorithm request;
   js "--variant"; SubtypingRequest.variant request;
   SubtypingRequest.leftType request; SubtypingRequest.rightType request].

(** [parsedValue.steps ?? []] as worded: the default replaces a missing
    or null [steps] only. *)
Definition spec_steps (parsed : JsValue) : JsValue :=
  match parsed with
  | JObj ms =>
      match last_member (js "steps") ms with
      | Some JNull | None => JArr []
      | Some s => s
      end
  | _ => JArr []
  end.

(** The decoding rules as worded: trailing whitespace is trimmed, a
    parsed value is wrapped, anything else is the text fallback. *)
Definition spec_decodeResult (outputBuffer : jsstring) : Response :=
  let output := trim_end outputBuffer in
  match JSON_parse output with
  | Some parsed =>
      {| success := true; result := Some parsed; error := None;
         steps := Some (spec_steps parsed) |}
  | None => text_result output
  end.

(** The stored string cut at its first occurrence of the separator: the
    key before it, the value everything after it. *)
Fixpoint split_first (sep cur s : jsstring) : option (jsstring * jsstring) :=
  match s with
  | [] => None
  | c :: r =>
      if starts_with sep s then Some (rev cur, drop (length sep) s)
      else split_first sep (c :: cur) r
  end.

(** The credential header builder as worded. *)
Definition spec_addAuthHeaders (source : WasmSource) (headers : Headers) : Headers :=
  match authType source with
  | Some AuthBearer =>
      <[js "Authorization" := js "Bearer " ++ default [] (authToken source)]> headers
  | Some AuthBasic =>
      <[js "Authorization" :=
          js "Basic " ++ b64_encode (default [] (authUsername source) ++ js ":"
                                       ++ default [] (authPassword source))]> headers
  | Some AuthHeader =>
      match split_first (js ": ") [] (default [] (authHeader source)) with
      | Some (key, value) => <[key := value]> headers
      | None => headers
      end
  | _ => headers
  end.

(** * Auxiliary notions for the statements *)

(** [sep] occurs in [s]. *)
Fixpoint contains (sep s : jsstring) : bool :=
  starts_with sep s
  || match s with
     | [] => false
     | _ :: r => contains sep r
     end.

(** [v.steps] for a parsed value other than [null]. *)
Definition property_steps (v : JsValue) : option JsValue :=
  match v with
  | JObj ms => last_member (js "steps") ms
  | _ => None
  end.

Definition with_inference_options (o : option Options) (r : InferenceRequest.t)
  : InferenceRequest.t :=
  {| InferenceRequest.algorithm := InferenceRequest.algorithm r;
     InferenceRequest.variant := InferenceRequest.variant r;
     InferenceRequest.expression := InferenceRequest.expression r;
     InferenceRequest.options := o |}.

Definition with_subtyping_options (o : option Options) (r : SubtypingRequest.t)
  : SubtypingRequest.t :=
  {| SubtypingRequest.algorithm := SubtypingRequest.algorithm r;
     SubtypingRequest.variant := SubtypingRequest.variant r;
     SubtypingRequest.leftType := SubtypingRequest.leftType r;
     SubtypingRequest.rightType := SubtypingRequest.rightType r;
     SubtypingRequest.options := o |}.

(** The sandbox run among the steps of an invocation, if it got that
    far: the instance started and the trap that ended the run, if any. *)
Fixpoint sandbox_run (tr : list Step) : option (Instance * option Thrown) :=
  match tr with
  | [] => None
  | Called (Start h) trap :: _ => Some (h, trap)
  | _ :: r => sandbox_run r
  end.

Definition unavailable : Thrown := ErrorObj (js "WASM module not available").

Definition not_loaded : Thrown := ErrorObj (js "WASM module not loaded").

(** The instantiation among the steps, if one was attempted, with the
    value it was rejected with, if any. *)
Fixpoint instantiation (tr : list Step) : option (option Thrown) :=
  match tr with
  | [] => None
  | Called (Instantiate _ _) thrown :: _ => Some thrown
  | _ :: r => instantiation r
  end.

(** How an invocation of a run method ends, by how far it got.  [caught]
    is what the method's outer [catch] makes of a thrown value and
    [decoded] what it makes of the output of a completed sandbox run. *)
Definition ends_as {A} (e e' : Engine) (tr : list Step) (out : Outcome A)
    (caught : Thrown -> Outcome A) (decoded : Outcome A) : Prop :=
  match instantiation tr with
  | None =>
      pool_ops tr = [] /\ sandbox_run tr = None
      /\ ((isInitialized e = false /\ out = Threw unavailable) \/ out = caught not_loaded)
  | Some (Some x) =>
      pool_ops tr = [] /\ sandbox_run tr = None /\ out = caught x
  | Some None =>
      exists h trap,
        sandbox_run tr = Some (h, trap)
        /\ pool_ops tr = [PoolAdd h; PoolDelete h]
        /\ (h ∉ activeInstances e')
        /\ out = match trap with
                 | Some x => caught x
                 | None => decoded
                 end
  end.

(** A handle the invocation registered was deleted by it, once and after
    the registration, and is not in the active set when it ends. *)
Definition released_once (e' : Engine) (tr : list Step) : Prop :=
  forall h, In (PoolAdd h) (pool_ops tr) ->
    pool_ops tr = [PoolAdd h; PoolDelete h]
    /\ count_occ PoolOp_eq_dec (pool_ops tr) (PoolDelete h) = 1%nat
    /\ (h ∉ activeInstances e').

(** The message the outer [catch] reports. *)
Definition message_of (x : Thrown) : jsstring :=
  match x with
  | ErrorObj message => message
  | NonError => js "Unknown WASM error"
  end.

(** The only exception a typed run method lets through, and what it
    makes of every other failure. *)
Definition typed_ending (e : Engine) (tr : list Step) (out : Outcome Response) : Prop :=
  (isInitialized e = true -> exists r, out = Returned r)
  /\ (forall x, out = Threw x ->
        isInitialized e = false /\ x = unavailable /\ instantiation tr = None)
  /\ (forall x, instantiation tr = Some (Some x) -> out = Returned (failure x))
  /\ (forall h x, sandbox_run tr = Some (h, Some x) -> out = Returned (failure x))
  /\ (forall r, out = Returned r -> success r = false ->
        exists x, r = {| success := false; result := None;
                         error := Some (message_of x); steps := None |}).

(** The calls by which [initialize] loads the module. *)
Definition loads_module (c : Call) : bool :=
  match c with
  | Fetch _ _ | ArrayBuffer | Compile _ => true
  | _ => false
  end.

(** A rejected call of the module's loading ends the invocation with the
    exception. *)
Definition load_failure_throws {A} (tr : list Step) (out : Outcome A) : Prop :=
  forall c x, loads_module c = true -> In (Called c (Some x)) tr -> out = Threw unavailable.

(** A missing module is caught.  An invocation that attempted no
    instantiation ended with the exception of the failed initialization
    or returned the error of the missing module; and on an initialized
    engine without a module the check at the head of the [try] throws
    before anything is called or changed, and the [catch] returns its
    error. *)
Definition missing_module_caught (e e' : Engine) (tr : list Step) (out : Outcome Response)
  : Prop :=
  (instantiation tr = None ->
     out = Threw unavailable \/ out = Returned (failure not_loaded))
  /\ (isInitialized e = true -> wasmModule e = None ->
        e' = e /\ tr = []
        /\ out = Returned {| success := false; result := None;
                             error := Some (js "WASM module not loaded"); steps := None |}).

(** A failed initialization is thrown: on an engine that is not
    initialized, an invocation without a successful compilation among
    its steps ends with the exception. *)
Definition failed_initialization_throws {A} (e : Engine) (tr : list Step) (out : Outcome A)
  : Prop :=
  isInitialized e = false ->
  (forall bytes, ~ In (Called (Compile bytes) None) tr) ->
  out = Threw unavailable.

(** Every instantiation among the steps was given the argument vector
    [args]. *)
Definition instantiated_with (args : list jsstring) (tr : list Step) : Prop :=
  forall m args' thrown, In (Called (Instantiate m args') thrown) tr -> args' = args.

(** ** Sample inputs *)

Definition sample_source (auth : option AuthType) (token header user password : option jsstring)
  : WasmSource :=
  {| source_id := js "s1"; source_name := js "Sample"; url := js "https://example.org/zoo.wasm";
     authType := auth; authToken := token; authHeader := header;
     authUsername := user; authPassword := password;
     isLocal := Some false; createdAt := 0%Z; lastUpdated := None |}.

Definition sample_inference (variant : option jsstring) : InferenceRequest.t :=
  {| InferenceRequest.algorithm := js "HM";
     InferenceRequest.variant := variant;
     InferenceRequest.expression := js "\x.x";
     InferenceRequest.options := None |}.

Definition sample_subtyping (variant : jsstring) : SubtypingRequest.t :=
  {| SubtypingRequest.algorithm := js "Fsub";
     SubtypingRequest.variant := variant;
     SubtypingRequest.leftType := js "Int";
     SubtypingRequest.rightType := js "Top";
     SubtypingRequest.options := None |}.

(** A fresh engine, and one that has loaded module 1. *)
Definition fresh_engine : Engine := new_engine (js "https://files.typ.how/zoo.wasm") 0.

Definition loaded_engine : Engine :=
  set_isInitialized true (set_wasmModule (Some 1%nat) fresh_engine).

(** Fixed answers to every call. *)
Definition answers (fetched : Outcome FetchResponse) (instance : Outcome Instance)
    (lines : list jsstring) (trap : option Thrown) : Oracle :=
  fun c =>
    match c return Answer c with
    | Fetch _ _ => fetched
    | ArrayBuffer => Returned []
    | Compile _ => Returned 1%nat
    | Instantiate _ _ => instance
    | Start _ => (lines, trap)
    | Sleep _ | Tick | StoreSource _ => tt
    end.

(** A world that gives the same answers at every call and leaves the
    engine alone while the invocation is suspended. *)
Definition quiet_world (o : Oracle) : World :=
  {| answer := fun _ => o; interfere := fun _ e => e |}.

Definition offline : Oracle :=
  answers (Threw (ErrorObj (js "Failed to fetch"))) (Returned 7%nat) [] None.

Definition sandbox_prints (lines : list jsstring) : Oracle :=
  answers (Threw (ErrorObj (js "Failed to fetch"))) (Returned 7%nat) lines None.

Definition instance_is (i : Instance) : Oracle :=
  answers (Threw (ErrorObj (js "Failed to fetch"))) (Returned i) [js "Int"] None.

(** Three inference requests made in one turn on a loaded engine; the
    three instantiations complete before any of the callers resumes.
    This is the order in which the continuations run when the three
    instantiation promises are settled in the same turn: each
    [createInstance] resumes and registers, and the callers, each queued
    by the return of its [createInstance], follow. *)
Definition three_at_once : list PoolEvent :=
  [Invoke (runInference (sample_inference None)) offline;
   Invoke (runInference (sample_inference None)) offline;
   Invoke (runInference (sample_inference None)) offline;
   Resume 0 (instance_is 10); Resume 1 (instance_is 11); Resume 2 (instance_is 12)].

(** Two instances are registered, their callers not yet resumed, when a
    third request arrives. *)
Definition arrival_at_cap : list PoolEvent :=
  [Invoke (runInference (sample_inference None)) offline;
   Invoke (runInference (sample_inference None)) offline;
   Resume 0 (instance_is 10); Resume 1 (instance_is 11);
   Invoke (runInference (sample_inference None)) offline].

Definition pool_start : PoolState := {| engine := loaded_engine; tasks := [] |}.

(** The third invocation of [arrival_at_cap], as its arrival leaves it. *)
Definition delayed_task : Prog Response :=
  default (Throw NonError) (tasks (pool_events pool_start arrival_at_cap) !! 2%nat).

(** The engine once the awaited call of [delayed_task] has completed and
    then its next one with instance [i], when the active set is [a] at
    the first of these two resumptions and nothing else runs between
    them. *)
Definition after_delay (a : gset nat) (i : Instance) : Engine :=
  let '(e1, p1) := resume offline delayed_task (set_activeInstances a loaded_engine) in
  let '(e2, _) := resume (instance_is i) p1 e1 in
  e2.

Module GrammarSamples.
Import GrammarCache.

Definition grammar_data : SyntaxHighlightingData :=
  {| language := js "zoo"; grammar := JObj [(js "scopeName", JStr (js "source.zoo"))] |}.

(** Two editors mount while the first load is in flight and the load
    fails; later a third editor mounts, the retry succeeds and all of
    them resume. *)
Definition failed_then_retried : list Event :=
  [Mount true None; Mount true None; RequestSettled 0 (Threw (ErrorObj (js "no grammar")));
   CallerResumed 0; CallerResumed 1;
   Mount true None; Mount true None; RequestSettled 1 (Returned grammar_data);
   OnigasmSettled 1 None; GrammarSettled 1 None; LoadResumed 1;
   CallerResumed 2; CallerResumed 3; Mount true None].

Definition after_retry : State :=
  default initial (replay initial failed_then_retried).

(** What the call of line 102 throws on an engine without the method. *)
Definition not_a_function : Thrown :=
  ErrorObj (js "wasmInference.requestTextMateGrammar is not a function").

(** Three editors mount one after the other, each after the one before
    it has given up, on an engine without the method. *)
Definition never_retried : list Event :=
  [Mount true (Some not_a_function); CallerResumed 0;
   Mount true (Some not_a_function); CallerResumed 1;
   Mount true (Some not_a_function); CallerResumed 2].
End GrammarSamples.

(** * More of the engine *)

(** [{...source, url: newUrl, id, createdAt}] *)
Definition with_url (newUrl newId : jsstring) (created : Z) (s : WasmSource) : WasmSource :=
  {| source_id := newId; source_name := source_name s; url := newUrl;
     authType := authType s; authToken := authToken s; authHeader := authHeader s;
     authUsername := authUsername s; authPassword := authPassword s;
     isLocal := isLocal s; createdAt := created; lastUpdated := lastUpdated s |}.

(** Lines 80-95; [now1] and [now2] are what the two calls of [Date.now()]
    returned, the first for the id and the second for [createdAt]. *)
Definition updateWasmUrl (newUrl : jsstring) (now1 now2 : Z) (e : Engine) : Engine :=
  if bool_decide (url (wasmSource e) ≠ newUrl) then
    set_isInitialized false
      (clearActiveInstances
         (set_wasmModule None
            (set_wasmSource (with_url newUrl (js (pretty now1)) now2 (wasmSource e)) e)))
  else e.

(** Lines 443-451; the hint to the collector does not touch the fields. *)
Definition cleanup (e : Engine) : Engine := clearActiveInstances e.

(** The text the sandbox leaves in an empty buffer: each line followed
    by a newline (lines 250-252). *)
Definition lines_text (lines : list jsstring) : jsstring :=
  foldl (fun buf msg => buf ++ msg ++ [10]) [] lines.

(** The calls among the steps. *)
Definition calls_of (tr : list Step) : list Call :=
  omap (fun s => match s with Called c _ => Some c | Did _ => None end) tr.

(** The calls of a run that does not load the module. *)
Definition runs_instance (c : Call) : bool :=
  match c with
  | Sleep _ | Instantiate _ _ | Tick | Start _ => true
  | _ => false
  end.

(** The call by which [createInstance] waits for a free slot. *)
Definition waits (c : Call) : bool :=
  match c with
  | Sleep _ => true
  | _ => false
  end.

(** The world in which [updateWasmSource newSource] is called while the
    fetch of [initialize] is pending, and nothing else happens to the
    engine. *)
Definition switch_during_fetch (newSource : WasmSource) (o : Oracle) : World :=
  {| answer := fun _ => o;
     interfere := fun n e => match n with
                             | O => updateWasmSource newSource e
                             | S _ => e
                             end |}.

(** The answers of a sandbox whose instance is [i] and which writes
    [lines] and ends without a trap. *)
Definition instance_prints (i : Instance) (lines : list jsstring) : Oracle :=
  answers (Threw (ErrorObj (js "Failed to fetch"))) (Returned i) lines None.

(** Two inference requests made in one turn, then the resumptions of
    [schedule]. *)
Definition two_at_once (r1 r2 : InferenceRequest.t) (schedule : list PoolEvent)
  : list PoolEvent :=
  Invoke (runInference r1) offline :: Invoke (runInference r2) offline :: schedule.

(** ** Sequential use

    The public methods, each called when the previous call has settled
    and run with nothing else touching the engine meanwhile. *)

Inductive Operation :=
| DoUpdateWasmUrl (newUrl : jsstring) (now1 now2 : Z)
| DoUpdateWasmSource (newSource : WasmSource)
| DoDestroy
| DoCleanup
| DoInitialize (o : Oracle)
| DoRunInference (request : InferenceRequest.t) (o : Oracle)
| DoRunSubtyping (request : SubtypingRequest.t) (o : Oracle)
| DoGetMetadata (o : Oracle).

Definition perform (e : Engine) (op : Operation) : Engine :=
  match op with
  | DoUpdateWasmUrl newUrl now1 now2 => updateWasmUrl newUrl now1 now2 e
  | DoUpdateWasmSource newSource => updateWasmSource newSource e
  | DoDestroy => destroy e
  | DoCleanup => cleanup e
  | DoInitialize o => (invocation (quiet_world o) initialize e).1.1
  | DoRunInference request o => (invocation (quiet_world o) (runInference request) e).1.1
  | DoRunSubtyping request o => (invocation (quiet_world o) (runSubtyping request) e).1.1
  | DoGetMetadata o => (invocation (quiet_world o) getMetadata e).1.1
  end.

(** The engine after the constructor and the calls [ops]. *)
Definition after_calls (wasmUrl : jsstring) (now : Z) (ops : list Operation) : Engine :=
  foldl perform (new_engine wasmUrl now) ops.

(** Between calls: an initialized engine has its module, no instance is
    active, and the cap is the constructor's. *)
Definition at_rest (e : Engine) : Prop :=
  (isInitialized e = true -> wasmModule e <> None)
  /\ activeInstances e = ∅
  /\ maxConcurrentInstances e = 2%nat.

(** What a run on an engine at rest does: it does not wait for a slot,
    it reaches the instantiation unless the module could not be loaded,
    and it leaves the engine at rest. *)
Definition sound_run {A} (r : Engine * list Step * Outcome A) : Prop :=
  existsb waits (calls_of r.1.2) = false
  /\ (instantiation r.1.2 = None -> r.2 = Threw unavailable)
  /\ at_rest r.1.1.

(** What a run leaves of the engine [e] it started from, apart from the
    output buffer. *)
Definition configuration_kept (e e' : Engine) : Prop :=
  wasmModule e' = wasmModule e /\ wasmSource e' = wasmSource e
  /\ isInitialized e' = isInitialized e
  /\ maxConcurrentInstances e' = maxConcurrentInstances e
  /\ activeInstances e' ⊆ activeInstances e.

(** * The [useWasmLoader] hook

    The state of the hook is what its two setters were last called with;
    [fetch] and [response.arrayBuffer] answer as the oracle says. *)

(** [response.headers.get('Last-Modified')] *)
Definition getLastModified (response : FetchResponse) : option jsstring :=
  lastModified response.

Module WasmLoader.

Record LoaderState := { isLoading : bool; error : option jsstring }.

Record WasmLoadResult := { arrayBuffer : list N; lastModified : option jsstring }.

(** Lines 23-24. *)
Definition idle : LoaderState := {| isLoading := false; error := None |}.

(** The [try] block of [loadWasmWithAuth] (lines 30-88), with the calls
    it made. *)
Definition try_block (o : Oracle) (source : WasmSource) : list Call * Outcome WasmLoadResult :=
  match requestHeaders source with
  | Threw x => ([], Threw x)
  | Returned headers =>
      let request := Fetch (url source) headers in
      match o request with
      | Threw x => ([request], Threw x)
      | Returned response =>
          if negb (ok response) then
            ([request],
             Threw (ErrorObj (js "Failed to load WASM: " ++ js (pretty (status response))
                                ++ js " " ++ statusText response)))
          else
            match o ArrayBuffer with
            | Threw x => ([request; ArrayBuffer], Threw x)
            | Returned bytes =>
                ([request; ArrayBuffer],
                 Returned {| arrayBuffer := bytes;
                             lastModified := nonempty (getLastModified response) |})
            end
      end
  end.

(** Line 90. *)
Definition errorMessage (err : Thrown) : jsstring :=
  match err with
  | ErrorObj message => message
  | NonError => js "Unknown error loading WASM"
  end.

(** Lines 26-97: the two setters at the start, the [try] block, the
    [catch] that records the message and throws the value again, and the
    [finally]. *)
Definition loadWasmWithAuth (o : Oracle) (source : WasmSource) (s : LoaderState)
  : LoaderState * list Call * Outcome WasmLoadResult :=
  let s1 := {| isLoading := true; error := error s |} in
  let s2 := {| isLoading := isLoading s1; error := None |} in
  let '(calls, r) := try_block o source in
  let s3 := match r with
            | Returned _ => s2
            | Threw err => {| isLoading := isLoading s2; error := Some (errorMessage err) |}
            end in
  ({| isLoading := false; error := error s3 |}, calls, r).

End WasmLoader.

(** * More on the grammar cache *)

Module GrammarEvents.
Import GrammarCache.

(** The events at which [loadWASM] of onigasm has succeeded (line 139). *)
Definition onigasm_loaded (ev : Event) : bool :=
  match ev with
  | OnigasmSettled _ None => true
  | _ => false
  end.

(** A call of [loadTextMateGrammar] with what its call of line 102
    would throw. *)
Definition mount (m : bool * option Thrown) : Event := Mount m.1 m.2.

(** What a call does that finds the rejected promise [p] cached: it
    waits for it, and gives up when it resumes. *)
Definition gives_up (p : nat) (c : Caller) : Prop :=
  c = Waiting p \/ c = Done (Some p) None \/ c = Done None None.


End GrammarEvents.

(** * The stored sources

    The two keys of [localStorage] the code reads and writes.  The item
    [wasm-sources] is absent (or the empty string, which the tests of
    lines 416 and 461 treat alike), or a text that [JSON.parse] rejects
    or that is not an array, or an array; the array is taken to hold
    source descriptors, as the settings dialog writes them. *)

Inductive Saved :=
| NoItem
| Malformed
| Parsed (sources : list WasmSource).

Record Storage := {
  wasm_sources : Saved;
  current_wasm_url : option jsstring
}.

(** [parsed.find(s => s.url === currentUrl) || parsed[0]] (line 465, and
    lines 43 and 74 of the dropdown). *)
Definition find_current (parsed : list WasmSource) (currentUrl : option jsstring)
  : option WasmSource :=
  match List.find (fun s => bool_decide (Some (url s) = currentUrl)) parsed with
  | Some s => Some s
  | None => head parsed
  end.

(** Lines 412-431: the first stored descriptor that has the id of
    [source], the engine's descriptor, is replaced by it; the flag tells
    whether the event [wasmSourceUpdated] was dispatched. *)
Definition updateSourceInStorage (source : WasmSource) (st : Storage) : Storage * bool :=
  match wasm_sources st with
  | Parsed sources =>
      match list_find (fun s => source_id s = source_id source) sources with
      | Some (sourceIndex, _) =>
          ({| wasm_sources := Parsed (<[sourceIndex := source]> sources);
              current_wasm_url := current_wasm_url st |}, true)
      | None => (st, false)
      end
  | _ => (st, false)
  end.

(** Lines 455-477; [now] is what [Date.now()] returned in the
    constructor. *)
Definition initializeWasmSource (now : Z) (st : Storage) : Engine :=
  let instance := new_engine (js "https://files.typ.how/zoo.wasm") now in
  match wasm_sources st with
  | Parsed (first :: rest) =>
      match find_current (first :: rest) (current_wasm_url st) with
      | Some currentSource => updateWasmSource currentSource instance
      | None => instance
      end
  | _ => instance
  end.

(** * The source dropdown *)

Module SourceDropdown.

Record State := { sources : list WasmSource; currentSourceId : jsstring }.

(** Lines 30-31. *)
Definition initial : State := {| sources := []; currentSourceId := js "default" |}.

(** Lines 51-58. *)
Definition defaultSource (now : Z) : WasmSource :=
  {| source_id := js "default";
     source_name := js "Type Inference Zoo (Default)";
     url := js "https://files.typ.how/zoo.wasm";
     authType := Some AuthNone;
     authToken := None; authHeader := None;
     authUsername := None; authPassword := None;
     isLocal := Some false; createdAt := now; lastUpdated := None |}.

(** Lines 66-81, the listener of [storage] and [wasmUrlChanged]. *)
Definition handleStorageChange (st : Storage) (s : State) : State :=
  match wasm_sources st with
  | Parsed (first :: rest) =>
      match find_current (first :: rest) (current_wasm_url st) with
      | Some currentSource =>
          {| sources := first :: rest; currentSourceId := source_id currentSource |}
      | None => {| sources := first :: rest; currentSourceId := currentSourceId s |}
      end
  | _ => s
  end.

(** Lines 34-62, the effect that runs when the component mounts. *)
Definition loadSources (now : Z) (st : Storage) (s : State) : State :=
  match wasm_sources st with
  | NoItem => {| sources := [defaultSource now]; currentSourceId := js "default" |}
  | _ => handleStorageChange st s
  end.

(** Lines 93-102.  [onWasmSourceChange] is the parent's callback, with
    what it does to the storage; the event dispatched at line 99 is
    delivered at once to the component's own listener. *)
Definition handleSourceSelect (onWasmSourceChange : WasmSource -> Storage -> Storage)
    (source : WasmSource) (st : Storage) (s : State) : Storage * State :=
  let s1 := {| sources := sources s; currentSourceId := source_id source |} in
  let st1 := {| wasm_sources := wasm_sources st; current_wasm_url := Some (url source) |} in
  let st2 := onWasmSourceChange source st1 in
  (st2, handleStorageChange st2 s1).

(** Line 104. *)
Definition currentSource (s : State) : option WasmSource :=
  List.find (fun x => bool_decide (source_id x = currentSourceId s)) (sources s).

End SourceDropdown.

(** ** More sample inputs *)

Definition stamped_response : FetchResponse :=
  {| ok := true; status := 200; statusText := js "OK";
     lastModified := Some (js "Tue, 14 Nov 2023 22:13:20 GMT") |}.

Definition not_found_response : FetchResponse :=
  {| ok := false; status := 404; statusText := js "Not Found"; lastModified := None |}.

(** The module is served with a stamp; the sandbox prints one line. *)
Definition online : Oracle :=
  answers (Returned stamped_response) (Returned 7%nat) [js "Int"] None.

Definition not_found : Oracle :=
  answers (Returned not_found_response) (Returned 7%nat) [] None.

Definition token_source : WasmSource :=
  sample_source (Some AuthBearer) (Some (js "t0k3n")) None None None.

(** A loaded engine whose source carries a bearer token. *)
Definition token_engine : Engine := set_wasmSource token_source loaded_engine.

(** A fresh engine whose password has a character outside Latin-1. *)
Definition euro_engine : Engine :=
  set_wasmSource
    (sample_source (Some AuthBasic) None None (Some (js "user")) (Some [8364]))
    fresh_engine.

Definition mirror_source : WasmSource :=
  {| source_id := js "m1"; source_name := js "Mirror";
     url := js "https://mirror.example/zoo.wasm";
     authType := Some AuthNone; authToken := None; authHeader := None;
     authUsername := None; authPassword := None;
     isLocal := Some false; createdAt := 1700000000000%Z; lastUpdated := None |}.

(** A second descriptor of the mirror's URL. *)
Definition mirror_copy : WasmSource :=
  {| source_id := js "m2"; source_name := js "Mirror (copy)";
     url := js "https://mirror.example/zoo.wasm";
     authType := Some AuthNone; authToken := None; authHeader := None;
     authUsername := None; authPassword := None;
     isLocal := Some false; createdAt := 1700000000001%Z; lastUpdated := None |}.

Definition sample_storage : Storage :=
  {| wasm_sources := Parsed [SourceDropdown.defaultSource 0; mirror_source; token_source];
     current_wasm_url := None |}.

(** The parent's callback leaves the storage alone. *)
Definition no_callback (source : WasmSource) (st : Storage) : Storage := st.

Definition sample_calls : list Operation :=
  [DoRunInference (sample_inference None) online;
   DoUpdateWasmSource token_source;
   DoGetMetadata not_found;
   DoUpdateWasmUrl (js "https://mirror.example/zoo.wasm") 1700000000000 1700000000001;
   DoRunSubtyping (sample_subtyping []) online;
   DoCleanup; DoDestroy; DoInitialize online].

(** * Proof automation *)

Arguments js : simpl never.
Arguments decodeResult : simpl never.
Arguments decodeMetadata : simpl never.
Arguments inferenceArgs : simpl never.
Arguments subtypingArgs : simpl never.
Arguments metadataArgs : simpl never.
Arguments requestHeaders : simpl never.
Arguments failure : simpl never.
Arguments pool_apply : simpl never.
Arguments foldl : simpl never.
Arguments unavailable : simpl never.
Arguments not_loaded : simpl never.

(** Evaluate the invocation in hypothesis [H] along every path: unfold
    the method bodies down to the constructors of [Prog], then split on
    each test that blocks the evaluation of [run]. *)
Ltac run_in H :=
  unfold invocation, runInference, runSubtyping, getMetadata, ensureInitialized,
    initialize, invoke, createInstance, await_method, try_finally, wasiStart,
    cleanupInstance, await, call, lift, modify, pool, get, mbind, mret,
    Prog_bind, Prog_ret in H;
  cbn in H;
  repeat (match type of H with
          | context [match ?x with _ => _ end] =>
              lazymatch x with
              | context [match _ with _ => _ end] => fail
              | _ => destruct x eqn:?
              end
          end; cbn in H).

(** Close a path of [run_in]: read off the engine, the steps and the
    outcome, and check them against [ends_as]. *)
Ltac finish_run H lem :=
  injection H as <- <- <-; unfold ends_as; cbn;
  first
    [ do 2 eexists; split; [reflexivity |];
      split; [reflexivity |]; split; [apply lem | first [reflexivity | congruence]]
    | split; [reflexivity |]; split; [reflexivity |];
      first [ reflexivity
            | right; reflexivity
            | left; split; [assumption | reflexivity] ] ].

(** Close a path of [run_in] for a statement about the rejected calls
    among the steps. *)
Ltac rejected_call H :=
  injection H as <- <- <-; cbn; intros ? ? Hc Hin;
  repeat (destruct Hin as [Hin | Hin];
          [try discriminate;
           try (inversion Hin; subst; simpl in Hc; discriminate Hc) |]);
  try contradiction; try reflexivity.

(** Close a path of [run_in] for a statement about the arguments of the
    instantiation among the steps. *)
Ltac instantiate_call H :=
  injection H as <- <- <-; cbn; intros ? ? ? Hin;
  repeat (destruct Hin as [Hin | Hin];
          [try discriminate; try (injection Hin as _ <- _; reflexivity) |]);
  try contradiction.

(** Evaluate the invocation in [H] as far as it goes without a case
    split; [next_in H E] goes on with the equation [E], and [cases_in H]
    splits on the tests that are left. *)
Ltac start_in H :=
  unfold invocation, runInference, runSubtyping, getMetadata, ensureInitialized,
    initialize, invoke, createInstance, await_method, try_finally, wasiStart,
    cleanupInstance, await, call, lift, modify, pool, get, mbind, mret,
    Prog_bind, Prog_ret in H;
  cbn in H.

Ltac next_in H E := repeat (rewrite E in H; cbn in H).

Ltac cases_in H :=
  repeat (match type of H with
          | context [match ?x with _ => _ end] =>
              lazymatch x with
              | context [match _ with _ => _ end] => fail
              | _ => destruct x eqn:?
              end
          end; cbn in H).

(** * How an invocation ends *)

Lemma released h (s : gset nat) : h ∉ pool_apply (PoolDelete h) s.
Proof.
  unfold pool_apply. intros [_ Hn]%elem_of_difference.
  apply Hn, elem_of_singleton. reflexivity.
Qed.

Lemma runInference_ends w req e e' tr out :
  invocation w (runInference req) e = (e', tr, out) ->
  ends_as e e' tr out (fun x => Returned (failure x))
    (Returned (decodeResult (outputBuffer e'))).
Proof. intros H. run_in H; finish_run H released. Qed.

Lemma runSubtyping_ends w req e e' tr out :
  invocation w (runSubtyping req) e = (e', tr, out) ->
  ends_as e e' tr out (fun x => Returned (failure x))
    (Returned (decodeResult (outputBuffer e'))).
Proof. intros H. run_in H; finish_run H released. Qed.

Lemma getMetadata_ends w e e' tr out :
  invocation w getMetadata e = (e', tr, out) ->
  ends_as e e' tr out Threw (decodeMetadata (outputBuffer e')).
Proof. intros H. run_in H; finish_run H released. Qed.

Lemma ends_as_released {A} e e' tr (out : Outcome A) caught decoded :
  ends_as e e' tr out caught decoded -> released_once e' tr.
Proof.
  unfold ends_as, released_once. intros H h Hin.
  destruct (instantiation tr) as [[x|]|].
  - destruct H as (Hp & _). rewrite Hp in Hin. destruct Hin.
  - destruct H as (h' & trap & _ & Hp & Hout & _). rewrite Hp in Hin |- *.
    destruct Hin as [[= ->]|[[=]|[]]].
    repeat split; [|assumption].
    cbn [count_occ]. repeat destruct (PoolOp_eq_dec _ _); congruence.
  - destruct H as (Hp & _). rewrite Hp in Hin. destruct Hin.
Qed.

Lemma invocation_eta {A} (w : World) (p : Prog A) (e : Engine) :
  invocation w p e = ((invocation w p e).1.1, (invocation w p e).1.2, (invocation w p e).2).
Proof. destruct (invocation w p e) as [[e' tr] out]. reflexivity. Qed.

Lemma ends_as_decoded {A} e e' tr (out : Outcome A) caught decoded h :
  ends_as e e' tr out caught decoded -> sandbox_run tr = Some (h, None) -> out = decoded.
Proof.
  unfold ends_as. intros H Hs.
  destruct (instantiation tr) as [[x|]|].
  - destruct H as (_ & Hs' & _). congruence.
  - destruct H as (h' & trap & Hs' & _ & _ & ->).
    rewrite Hs in Hs'. injection Hs' as <- <-. reflexivity.
  - destruct H as (_ & Hs' & _). congruence.
Qed.

Lemma runInference_args w req e e' tr out :
  invocation w (runInference req) e = (e', tr, out) ->
  instantiated_with (inferenceArgs req) tr.
Proof. intros H. unfold instantiated_with. run_in H; instantiate_call H. Qed.

Lemma runSubtyping_args w req e e' tr out :
  invocation w (runSubtyping req) e = (e', tr, out) ->
  instantiated_with (subtypingArgs req) tr.
Proof. intros H. unfold instantiated_with. run_in H; instantiate_call H. Qed.

Lemma getMetadata_args w e e' tr out :
  invocation w getMetadata e = (e', tr, out) -> instantiated_with metadataArgs tr.
Proof. intros H. unfold instantiated_with. run_in H; instantiate_call H. Qed.

(** * Request encoding *)

(** C6, as the code has it.  An inference request encodes to
    infer, --typing, algorithm, expression, with --variant and the variant
    before the expression exactly when the variant is a non-empty string;
    an absent or empty variant is left out.  A subtyping request encodes
    likewise to infer, --subtyping, algorithm, left type, right type.  The
    metadata request is infer, --meta.  The options never reach the
    argument vector.  The two encodings of the design document's example
    are as it gives them.  These vectors are the ones the run methods
    hand to the instance they create. *)
Theorem request_encoding :
  (forall r : InferenceRequest.t,
      inferenceArgs r =
      match InferenceRequest.variant r with
      | Some (c :: v) =>
          [js "infer"; js "--typing"; InferenceRequest.algorithm r;
           js "--variant"; c :: v; InferenceRequest.expression r]
      | _ => [js "infer"; js "--typing"; InferenceRequest.algorithm r;
              InferenceRequest.expression r]
      end)
  /\ (forall r : SubtypingRequest.t,
      subtypingArgs r =
      match SubtypingRequest.variant r with
      | c :: v =>
          [js "infer"; js "--subtyping"; SubtypingRequest.algorithm r;
           js "--variant"; c :: v;
           SubtypingRequest.leftType r; SubtypingRequest.rightType r]
      | [] => [js "infer"; js "--subtyping"; SubtypingRequest.algorithm r;
               SubtypingRequest.leftType r; SubtypingRequest.rightType r]
      end)
  /\ metadataArgs = [js "infer"; js "--meta"]
  /\ (forall o r, inferenceArgs (with_inference_options o r) = inferenceArgs r)
  /\ (forall o r, subtypingArgs (with_subtyping_options o r) = subtypingArgs r)
  /\ inferenceArgs (sample_inference None) = [js "infer"; js "--typing"; js "HM"; js "\x.x"]
  /\ inferenceArgs (sample_inference (Some (js "let-poly")))
     = [js "infer"; js "--typing"; js "HM"; js "--variant"; js "let-poly"; js "\x.x"]
  /\ (forall w req e e' tr out,
        invocation w (runInference req) e = (e', tr, out) ->
        instantiated_with (inferenceArgs req) tr)
  /\ (forall w req e e' tr out,
        invocation w (runSubtyping req) e = (e', tr, out) ->
        instantiated_with (subtypingArgs req) tr)
  /\ (forall w e e' tr out,
        invocation w getMetadata e = (e', tr, out) -> instantiated_with metadataArgs tr).
Proof.
  repeat apply conj.
  - intros [alg [[|c v]|] expr opts]; reflexivity.
  - intros [alg [|c v] l r opts]; reflexivity.
  - reflexivity.
  - intros o [alg var expr opts]; reflexivity.
  - intros o [alg var l r opts]; reflexivity.
  - reflexivity.
  - reflexivity.
  - exact runInference_args.
  - exact runSubtyping_args.
  - exact getMetadata_args.
Qed.

(** The vector handed to the instance of an inference request with a
    variant. *)
Lemma request_encoding_witness :
  [js "infer"; js "--typing"; js "HM"; js "--variant"; js "let-poly"; js "\x.x"]
  = inferenceArgs (sample_inference (Some (js "let-poly"))).
Proof.
  apply (proj1 (proj2 (proj2 (proj2 (proj2 (proj2 (proj2 (proj2 request_encoding)))))))
           (quiet_world (instance_is 7)) (sample_inference (Some (js "let-poly")))
           loaded_engine _ _ _ (invocation_eta _ _ _) (Some 1%nat) _ None).
  vm_compute. left. reflexivity.
Defined.

(** C6, as worded, fails on a request whose variant is the empty string:
    the variant is there, and the code leaves it out. *)
Lemma empty_variant_not_encoded :
  inferenceArgs (sample_inference (Some [])) = [js "infer"; js "--typing"; js "HM"; js "\x.x"]
  /\ inferenceArgs (sample_inference (Some [])) <> spec_inferenceArgs (sample_inference (Some []))
  /\ subtypingArgs (sample_subtyping [])
     = [js "infer"; js "--subtyping"; js "Fsub"; js "Int"; js "Top"]
  /\ subtypingArgs (sample_subtyping []) <> spec_subtypingArgs (sample_subtyping []).
Proof. repeat apply conj; try reflexivity; vm_compute; discriminate. Qed.

(** * Decoding *)

Lemma read_steps_not_null v : v <> JNull -> read_steps v = Returned (property_steps v).
Proof. destruct v; simpl; congruence. Qed.

Lemma decodeResult_unparsed buffer :
  JSON_parse (trim buffer) = None -> decodeResult buffer = text_result (trim buffer).
Proof. unfold decodeResult. intros ->. reflexivity. Qed.

Lemma decodeResult_parsed buffer v :
  JSON_parse (trim buffer) = Some v -> v <> JNull ->
  decodeResult buffer =
  {| success := true; result := Some v; error := None;
     steps := Some (or_empty_array (property_steps v)) |}.
Proof.
  unfold decodeResult. intros -> Hv. rewrite (read_steps_not_null _ Hv). reflexivity.
Qed.

Lemma decodeResult_null buffer :
  JSON_parse (trim buffer) = Some JNull -> decodeResult buffer = text_result (trim buffer).
Proof. unfold decodeResult. intros ->. reflexivity. Qed.

(** C5, as the code has it.  The buffer is trimmed at both ends and
    parsed.  A parsed value other than null is wrapped with success true,
    the value as result, and as steps the value's steps member when that
    is truthy, the empty array otherwise; an unparseable text gives the
    text fallback.  The two decodings of the design document hold.  Both
    typed run methods return this decoding of the buffer after a sandbox
    run that did not trap. *)
Theorem decoding_rules (buffer : jsstring) :
  (forall v, JSON_parse (trim buffer) = Some v -> v <> JNull ->
     decodeResult buffer =
     {| success := true; result := Some v; error := None;
        steps := Some (match property_steps v with
                       | Some s => if truthy s then s else JArr []
                       | None => JArr []
                       end) |})
  /\ (JSON_parse (trim buffer) = None ->
      decodeResult buffer =
      {| success := true; result := Some (JObj [(js "type", JStr (trim buffer))]);
         error := None; steps := Some (JArr []) |})
  /\ decodeResult (jsq "{'type':'Int'}")
     = {| success := true; result := Some (JObj [(js "type", JStr (js "Int"))]);
          error := None; steps := Some (JArr []) |}
  /\ decodeResult (js "Int -> Int")
     = {| success := true; result := Some (JObj [(js "type", JStr (js "Int -> Int"))]);
          error := None; steps := Some (JArr []) |}
  /\ (forall w req e e' tr out h,
        invocation w (runInference req) e = (e', tr, out) ->
        sandbox_run tr = Some (h, None) ->
        out = Returned (decodeResult (outputBuffer e')))
  /\ (forall w req e e' tr out h,
        invocation w (runSubtyping req) e = (e', tr, out) ->
        sandbox_run tr = Some (h, None) ->
        out = Returned (decodeResult (outputBuffer e'))).
Proof.
  repeat apply conj.
  - intros v Hp Hv. apply decodeResult_parsed; assumption.
  - intros Hp. apply decodeResult_unparsed; assumption.
  - vm_compute. reflexivity.
  - vm_compute. reflexivity.
  - intros w req e e' tr out h H Hs.
    exact (ends_as_decoded _ _ _ _ _ _ h (runInference_ends _ _ _ _ _ _ H) Hs).
  - intros w req e e' tr out h H Hs.
    exact (ends_as_decoded _ _ _ _ _ _ h (runSubtyping_ends _ _ _ _ _ _ H) Hs).
Qed.

(** The decoding rules at a structured output with steps and at a plain
    text, each followed by the newline of its line. *)
Lemma decoding_rules_witness :
  decodeResult (jsq "{'type':'Int -> Int','steps':[{'rule':'Var'}]}" ++ [10])
  = {| success := true;
       result := Some (JObj [(js "type", JStr (js "Int -> Int"));
                             (js "steps", JArr [JObj [(js "rule", JStr (js "Var"))]])]);
       error := None;
       steps := Some (JArr [JObj [(js "rule", JStr (js "Var"))]]) |}
  /\ decodeResult (js "forall a. a -> a" ++ [10])
     = {| success := true;
          result := Some (JObj [(js "type", JStr (js "forall a. a -> a"))]);
          error := None; steps := Some (JArr []) |}.
Proof.
  split.
  - apply (proj1 (decoding_rules (jsq "{'type':'Int -> Int','steps':[{'rule':'Var'}]}" ++ [10]))
             (JObj [(js "type", JStr (js "Int -> Int"));
                    (js "steps", JArr [JObj [(js "rule", JStr (js "Var"))]])])).
    + vm_compute. reflexivity.
    + discriminate.
  - apply (proj1 (proj2 (decoding_rules (js "forall a. a -> a" ++ [10])))).
    vm_compute. reflexivity.
Defined.

(** C5, as worded, fails on three outputs: a falsy steps member is
    replaced by the empty array although it is not null; the text null
    parses and still gives the text fallback; leading whitespace is
    trimmed from the text of the fallback as well. *)
Lemma decoding_differs_from_wording :
  steps (decodeResult (jsq "{'steps':false}" ++ [10])) = Some (JArr [])
  /\ steps (spec_decodeResult (jsq "{'steps':false}" ++ [10])) = Some (JBool false)
  /\ result (decodeResult (js "null" ++ [10])) = Some (JObj [(js "type", JStr (js "null"))])
  /\ result (spec_decodeResult (js "null" ++ [10])) = Some JNull
  /\ result (decodeResult (js "  Int" ++ [10])) = Some (JObj [(js "type", JStr (js "Int"))])
  /\ result (spec_decodeResult (js "  Int" ++ [10]))
     = Some (JObj [(js "type", JStr (js "  Int"))]).
Proof. repeat apply conj; vm_compute; reflexivity. Qed.

(** * The release of instances *)

(** C8.  Whatever the world answers and however the invocation ends, by
    a result, a decoding failure or a trap of the sandbox, an instance
    that a run method registered is deleted from the active set by that
    invocation, once, after its registration and before the method
    returns or throws. *)
Theorem instance_released_on_every_path (w : World) (e e' : Engine) (tr : list Step) :
  (forall req out, invocation w (runInference req) e = (e', tr, out) -> released_once e' tr)
  /\ (forall req out, invocation w (runSubtyping req) e = (e', tr, out) -> released_once e' tr)
  /\ (forall out, invocation w getMetadata e = (e', tr, out) -> released_once e' tr).
Proof.
  repeat apply conj; intros.
  - eapply ends_as_released, runInference_ends; eassumption.
  - eapply ends_as_released, runSubtyping_ends; eassumption.
  - eapply ends_as_released, getMetadata_ends; eassumption.
Qed.

(** The release at an invocation whose sandbox traps. *)
Lemma instance_released_witness :
  let r := invocation (quiet_world (answers (Threw NonError) (Returned 7%nat) [js "Int"]
                                      (Some (ErrorObj (js "unreachable")))))
             (runInference (sample_inference None)) loaded_engine in
  r.2 = Returned (failure (ErrorObj (js "unreachable")))
  /\ pool_ops r.1.2 = [PoolAdd 7%nat; PoolDelete 7%nat]
  /\ count_occ PoolOp_eq_dec (pool_ops r.1.2) (PoolDelete 7%nat) = 1%nat
  /\ (7%nat ∉ activeInstances r.1.1).
Proof.
  intros r. split; [vm_compute; reflexivity|].
  apply (proj1 (instance_released_on_every_path _ loaded_engine r.1.1 r.1.2)
           (sample_inference None) r.2 (invocation_eta _ _ _) 7%nat).
  vm_compute. left. reflexivity.
Defined.

(** * Failures of the typed run methods *)

Lemma decodeResult_success buffer : success (decodeResult buffer) = true.
Proof.
  unfold decodeResult. destruct (JSON_parse (trim buffer)) as [v|]; [|reflexivity].
  destruct (read_steps v); reflexivity.
Qed.

Lemma ends_as_typed e e' tr out :
  ends_as e e' tr out (fun x => Returned (failure x))
    (Returned (decodeResult (outputBuffer e'))) ->
  typed_ending e tr out.
Proof.
  unfold ends_as, typed_ending. intros H.
  destruct (instantiation tr) as [[x|]|].
  - destruct H as (_ & Hs & ->).
    repeat apply conj;
      [eauto | congruence | congruence | congruence
       | intros r [= <-] _; exists x; reflexivity].
  - destruct H as (h & [x|] & Hs & _ & _ & ->).
    + repeat apply conj;
        [eauto | congruence | congruence | congruence
         | intros r [= <-] _; exists x; reflexivity].
    + repeat apply conj; [eauto | congruence | congruence | congruence |].
      intros r [= <-] Hf. rewrite decodeResult_success in Hf. discriminate.
  - destruct H as (_ & Hs & [[Hi ->] | ->]).
    + repeat apply conj;
        [congruence | intros x [= <-]; auto | congruence | congruence | congruence].
    + repeat apply conj;
        [eauto | congruence | congruence | congruence
         | intros r [= <-] _; exists not_loaded; reflexivity].
Qed.

Lemma runInference_offline w req e e' tr out :
  invocation w (runInference req) e = (e', tr, out) -> load_failure_throws tr out.
Proof. intros H. unfold load_failure_throws. run_in H; rejected_call H. Qed.

Lemma runSubtyping_offline w req e e' tr out :
  invocation w (runSubtyping req) e = (e', tr, out) -> load_failure_throws tr out.
Proof. intros H. unfold load_failure_throws. run_in H; rejected_call H. Qed.

Lemma ends_as_missing e e' tr out decoded :
  ends_as e e' tr out (fun x => Returned (failure x)) decoded ->
  instantiation tr = None ->
  out = Threw unavailable \/ out = Returned (failure not_loaded).
Proof.
  unfold ends_as. intros H Hn. rewrite Hn in H.
  destruct H as (_ & _ & [[_ ->] | ->]); [left | right]; reflexivity.
Qed.

Lemma runInference_missing w req e e' tr out :
  invocation w (runInference req) e = (e', tr, out) ->
  isInitialized e = true -> wasmModule e = None ->
  e' = e /\ tr = [] /\ out = Returned (failure not_loaded).
Proof.
  intros H Hi Hm. start_in H. next_in H Hi. next_in H Hm.
  injection H as <- <- <-. auto.
Qed.

Lemma runSubtyping_missing w req e e' tr out :
  invocation w (runSubtyping req) e = (e', tr, out) ->
  isInitialized e = true -> wasmModule e = None ->
  e' = e /\ tr = [] /\ out = Returned (failure not_loaded).
Proof.
  intros H Hi Hm. start_in H. next_in H Hi. next_in H Hm.
  injection H as <- <- <-. auto.
Qed.

(** Close a path of an invocation on an engine that is not initialized:
    it ended with the exception, or a compilation succeeded. *)
Ltac not_compiled H :=
  injection H as <- <- <-; cbn; intros Hno;
  try reflexivity;
  exfalso; eapply Hno; cbn; eauto 12.

Lemma runInference_uninitialized w req e e' tr out :
  invocation w (runInference req) e = (e', tr, out) -> failed_initialization_throws e tr out.
Proof. intros H Hi. start_in H. next_in H Hi. cases_in H; not_compiled H. Qed.

Lemma runSubtyping_uninitialized w req e e' tr out :
  invocation w (runSubtyping req) e = (e', tr, out) -> failed_initialization_throws e tr out.
Proof. intros H Hi. start_in H. next_in H Hi. cases_in H; not_compiled H. Qed.

(** C2, as the code has it.  Once the engine is initialized a typed run
    method always returns a response: a rejected instantiation, a trap of
    the sandbox and a missing module are caught and returned with success
    false and the error's message; for the missing module that is WASM
    module not loaded, returned before anything is called.  The one
    exception it lets through is the error WASM module not available,
    thrown before the try when the lazy initialization fails: when the
    fetch of the module, the reading of its bytes or their compilation is
    rejected, and whenever the engine was not initialized and no
    compilation succeeds. *)
Theorem failures_become_responses (w : World) (e e' : Engine) (tr : list Step)
    (out : Outcome Response) :
  (forall req, invocation w (runInference req) e = (e', tr, out) ->
     typed_ending e tr out /\ load_failure_throws tr out
     /\ missing_module_caught e e' tr out /\ failed_initialization_throws e tr out)
  /\ (forall req, invocation w (runSubtyping req) e = (e', tr, out) ->
     typed_ending e tr out /\ load_failure_throws tr out
     /\ missing_module_caught e e' tr out /\ failed_initialization_throws e tr out).
Proof.
  split; intros req H; (split; [| split; [| split; [split |]]]).
  - eapply ends_as_typed, runInference_ends; eassumption.
  - eapply runInference_offline; eassumption.
  - eapply ends_as_missing, runInference_ends; eassumption.
  - eapply runInference_missing; eassumption.
  - eapply runInference_uninitialized; eassumption.
  - eapply ends_as_typed, runSubtyping_ends; eassumption.
  - eapply runSubtyping_offline; eassumption.
  - eapply ends_as_missing, runSubtyping_ends; eassumption.
  - eapply runSubtyping_missing; eassumption.
  - eapply runSubtyping_uninitialized; eassumption.
Qed.

(** The typed response at a rejected instantiation and at a missing
    module, and the exception when the server answers 404. *)
Lemma failures_become_responses_witness :
  let r := invocation (quiet_world (answers (Threw NonError)
                                      (Threw (ErrorObj (js "out of memory"))) [] None))
             (runSubtyping (sample_subtyping (js "F"))) loaded_engine in
  let unloaded := set_wasmModule None loaded_engine in
  let m := invocation (quiet_world online) (runInference (sample_inference None)) unloaded in
  let n := invocation (quiet_world not_found) (runInference (sample_inference None))
             fresh_engine in
  r.2 = Returned {| success := false; result := None;
                    error := Some (js "out of memory"); steps := None |}
  /\ m = (unloaded, [],
          Returned {| success := false; result := None;
                      error := Some (js "WASM module not loaded"); steps := None |})
  /\ n.2 = Threw (ErrorObj (js "WASM module not available")).
Proof.
  intros r unloaded m n. repeat apply conj.
  - apply (proj1 (proj2 (proj2 (proj1
             (proj2 (failures_become_responses _ loaded_engine r.1.1 r.1.2 r.2)
                (sample_subtyping (js "F")) (invocation_eta _ _ _)))))
             (ErrorObj (js "out of memory"))).
    vm_compute. reflexivity.
  - destruct (proj1 (failures_become_responses _ unloaded m.1.1 m.1.2 m.2)
                (sample_inference None) (invocation_eta _ _ _))
      as (_ & _ & [_ Hm] & _).
    destruct (Hm eq_refl eq_refl) as (He & Ht & Ho).
    rewrite <- Ho, <- Ht, <- He. exact (invocation_eta _ _ _).
  - apply (proj2 (proj2 (proj2 (proj1
             (failures_become_responses _ fresh_engine n.1.1 n.1.2 n.2)
             (sample_inference None) (invocation_eta _ _ _))))).
    + reflexivity.
    + intros bytes Hin. vm_compute in Hin. intuition discriminate.
Defined.

(** C2, as worded, fails when the engine is not initialized and the
    module cannot be fetched: the caller gets an exception, not a
    response. *)
Lemma initialization_failure_is_thrown :
  (invocation (quiet_world offline) (runInference (sample_inference None)) fresh_engine).2
  = Threw (ErrorObj (js "WASM module not available"))
  /\ (invocation (quiet_world offline) (runSubtyping (sample_subtyping [])) fresh_engine).2
     = Threw (ErrorObj (js "WASM module not available")).
Proof. split; vm_compute; reflexivity. Qed.

(** * Parse failures *)

(** C7.  When the trimmed output of a metadata request does not parse,
    [getMetadata] throws: never a result, and after a completed sandbox
    run the error Failed to parse metadata JSON from WASM.  On such an
    output the two typed run methods return the text fallback instead. *)
Theorem metadata_parse_failure_is_thrown :
  (forall w e e' tr out,
      invocation w getMetadata e = (e', tr, out) ->
      JSON_parse (trim (outputBuffer e')) = None ->
      (exists x, out = Threw x)
      /\ (forall h, sandbox_run tr = Some (h, None) ->
            out = Threw (ErrorObj (js "Failed to parse metadata JSON from WASM"))))
  /\ (forall w req e e' tr out h,
      invocation w (runInference req) e = (e', tr, out) ->
      sandbox_run tr = Some (h, None) ->
      JSON_parse (trim (outputBuffer e')) = None ->
      out = Returned {| success := true;
                        result := Some (JObj [(js "type", JStr (trim (outputBuffer e')))]);
                        error := None; steps := Some (JArr []) |})
  /\ (forall w req e e' tr out h,
      invocation w (runSubtyping req) e = (e', tr, out) ->
      sandbox_run tr = Some (h, None) ->
      JSON_parse (trim (outputBuffer e')) = None ->
      out = Returned {| success := true;
                        result := Some (JObj [(js "type", JStr (trim (outputBuffer e')))]);
                        error := None; steps := Some (JArr []) |}).
Proof.
  repeat apply conj.
  - intros w e e' tr out H Hp. apply getMetadata_ends in H. unfold ends_as in H.
    assert (Hd : decodeMetadata (outputBuffer e')
                 = Threw (ErrorObj (js "Failed to parse metadata JSON from WASM")))
      by (unfold decodeMetadata; rewrite Hp; reflexivity).
    rewrite Hd in H.
    destruct (instantiation tr) as [[x|]|].
    + destruct H as (_ & Hs & ->). split; [eauto | congruence].
    + destruct H as (h' & [x|] & Hs & _ & _ & ->); (split; [eauto | congruence]).
    + destruct H as (_ & Hs & [[_ ->] | ->]); (split; [eauto | congruence]).
  - intros w req e e' tr out h H Hs Hp. apply runInference_ends in H. unfold ends_as in H.
    rewrite (decodeResult_unparsed _ Hp) in H.
    destruct (instantiation tr) as [[x|]|].
    + destruct H as (_ & Hs' & _). congruence.
    + destruct H as (h' & trap & Hs' & _ & _ & ->).
      rewrite Hs in Hs'. injection Hs' as <- <-. reflexivity.
    + destruct H as (_ & Hs' & _). congruence.
  - intros w req e e' tr out h H Hs Hp. apply runSubtyping_ends in H. unfold ends_as in H.
    rewrite (decodeResult_unparsed _ Hp) in H.
    destruct (instantiation tr) as [[x|]|].
    + destruct H as (_ & Hs' & _). congruence.
    + destruct H as (h' & trap & Hs' & _ & _ & ->).
      rewrite Hs in Hs'. injection Hs' as <- <-. reflexivity.
    + destruct H as (_ & Hs' & _). congruence.
Qed.

(** The same unparseable output for a metadata and for an inference
    request. *)
Lemma metadata_parse_failure_witness :
  let w := quiet_world (sandbox_prints [js "usage: infer --typing ALGORITHM EXPR"]) in
  (invocation w getMetadata loaded_engine).2
  = Threw (ErrorObj (js "Failed to parse metadata JSON from WASM"))
  /\ (invocation w (runInference (sample_inference None)) loaded_engine).2
     = Returned {| success := true;
                   result := Some (JObj [(js "type",
                                          JStr (js "usage: infer --typing ALGORITHM EXPR"))]);
                   error := None; steps := Some (JArr []) |}.
Proof.
  intros w. split.
  - apply (proj2 (proj1 metadata_parse_failure_is_thrown w loaded_engine _ _ _
                    (invocation_eta _ _ _) ltac:(vm_compute; reflexivity)) 7%nat).
    vm_compute. reflexivity.
  - apply (proj1 (proj2 metadata_parse_failure_is_thrown) w (sample_inference None)
             loaded_engine _ _ _ 7%nat (invocation_eta _ _ _)).
    + vm_compute. reflexivity.
    + vm_compute. reflexivity.
Defined.

(** C10.  The text null parses, to the value null; reading the steps of
    that value throws inside the try, so the decoding of both typed run
    methods ends in the text fallback, whose type is the text null. *)
Theorem null_output_is_text :
  JSON_parse (js "null") = Some JNull
  /\ (exists x, read_steps JNull = Threw x)
  /\ (forall buffer, trim buffer = js "null" ->
        decodeResult buffer
        = {| success := true; result := Some (JObj [(js "type", JStr (js "null"))]);
             error := None; steps := Some (JArr []) |})
  /\ (forall w req e e' tr out h,
        invocation w (runInference req) e = (e', tr, out) ->
        sandbox_run tr = Some (h, None) ->
        trim (outputBuffer e') = js "null" ->
        out = Returned {| success := true;
                          result := Some (JObj [(js "type", JStr (js "null"))]);
                          error := None; steps := Some (JArr []) |})
  /\ (forall w req e e' tr out h,
        invocation w (runSubtyping req) e = (e', tr, out) ->
        sandbox_run tr = Some (h, None) ->
        trim (outputBuffer e') = js "null" ->
        out = Returned {| success := true;
                          result := Some (JObj [(js "type", JStr (js "null"))]);
                          error := None; steps := Some (JArr []) |}).
Proof.
  assert (Hnull : JSON_parse (js "null") = Some JNull) by (vm_compute; reflexivity).
  assert (Hdec : forall buffer, trim buffer = js "null" ->
                   decodeResult buffer = text_result (js "null")).
  { intros buffer Ht. rewrite decodeResult_null; rewrite Ht; [reflexivity | exact Hnull]. }
  repeat apply conj.
  - exact Hnull.
  - eexists. reflexivity.
  - exact Hdec.
  - intros w req e e' tr out h H Hs Ht. apply runInference_ends in H. unfold ends_as in H.
    rewrite (Hdec _ Ht) in H.
    destruct (instantiation tr) as [[x|]|].
    + destruct H as (_ & Hs' & _). congruence.
    + destruct H as (h' & trap & Hs' & _ & _ & ->).
      rewrite Hs in Hs'. injection Hs' as <- <-. reflexivity.
    + destruct H as (_ & Hs' & _). congruence.
  - intros w req e e' tr out h H Hs Ht. apply runSubtyping_ends in H. unfold ends_as in H.
    rewrite (Hdec _ Ht) in H.
    destruct (instantiation tr) as [[x|]|].
    + destruct H as (_ & Hs' & _). congruence.
    + destruct H as (h' & trap & Hs' & _ & _ & ->).
      rewrite Hs in Hs'. injection Hs' as <- <-. reflexivity.
    + destruct H as (_ & Hs' & _). congruence.
Qed.

(** The sandbox prints the line null. *)
Lemma null_output_witness :
  decodeResult (js "null" ++ [10])
  = {| success := true; result := Some (JObj [(js "type", JStr (js "null"))]);
       error := None; steps := Some (JArr []) |}
  /\ (invocation (quiet_world (sandbox_prints [js "null"]))
        (runInference (sample_inference None)) loaded_engine).2
     = Returned {| success := true; result := Some (JObj [(js "type", JStr (js "null"))]);
                   error := None; steps := Some (JArr []) |}.
Proof.
  split.
  - apply (proj1 (proj2 (proj2 null_output_is_text)) (js "null" ++ [10])).
    vm_compute. reflexivity.
  - apply (proj1 (proj2 (proj2 (proj2 null_output_is_text)))
             (quiet_world (sandbox_prints [js "null"])) (sample_inference None)
             loaded_engine _ _ _ 7%nat (invocation_eta _ _ _)).
    + vm_compute. reflexivity.
    + vm_compute. reflexivity.
Defined.

(** * Changing the source *)

Lemma strictly_unequal_false {A} `{EqDecision A} (a b : A) :
  bool_decide (a <> b) = false <-> a = b.
Proof.
  rewrite bool_decide_eq_false. destruct (decide (a = b)); tauto.
Qed.

Lemma source_differs_false (current newSource : WasmSource) :
  source_differs current newSource = false <-> same_configuration current newSource.
Proof.
  unfold source_differs, same_configuration.
  rewrite !orb_false_iff, !strictly_unequal_false. tauto.
Qed.

Lemma uninitialized_fetches w req e headers :
  isInitialized e = false ->
  requestHeaders (wasmSource e) = Returned headers ->
  exists thrown rest,
    (invocation w (runInference req) e).1.2
    = Called (Fetch (url (wasmSource e)) headers) thrown :: rest.
Proof.
  intros Hi Hh.
  destruct (invocation w (runInference req) e) as [[e' tr] out] eqn:H.
  run_in H; simplify_eq; cbn; eauto.
Qed.

(** C4.  [updateWasmSource] with a descriptor that agrees with the
    current one on the URL and on the five authentication fields changes
    nothing, whatever the other fields are.  With a descriptor that
    differs on one of them it stores the new descriptor, drops the
    compiled module, empties the active set and marks the engine
    uninitialized, so that the next run fetches the module again from
    the new URL. *)
Theorem updateWasmSource_effect (newSource : WasmSource) (e : Engine) :
  (same_configuration (wasmSource e) newSource -> updateWasmSource newSource e = e)
  /\ (~ same_configuration (wasmSource e) newSource ->
      wasmModule (updateWasmSource newSource e) = None
      /\ activeInstances (updateWasmSource newSource e) = ∅
      /\ isInitialized (updateWasmSource newSource e) = false
      /\ wasmSource (updateWasmSource newSource e) = newSource
      /\ forall w req headers,
          requestHeaders newSource = Returned headers ->
          exists thrown rest,
            (invocation w (runInference req) (updateWasmSource newSource e)).1.2
            = Called (Fetch (url newSource) headers) thrown :: rest).
Proof.
  unfold updateWasmSource. split.
  - intros Hs. apply source_differs_false in Hs. rewrite Hs. reflexivity.
  - intros Hs. destruct (source_differs (wasmSource e) newSource) eqn:Hd.
    + repeat apply conj; try reflexivity.
      intros w req headers Hh. apply uninitialized_fetches; [reflexivity | exact Hh].
    + apply source_differs_false in Hd. contradiction.
Qed.

(** A renamed copy of the current source, then a source with a bearer
    token, on an engine with a module and an active instance. *)
Lemma updateWasmSource_witness :
  let renamed :=
    {| source_id := js "1700000000000"; source_name := js "Mirror";
       url := js "https://files.typ.how/zoo.wasm";
       authType := Some AuthNone; authToken := None; authHeader := None;
       authUsername := None; authPassword := None;
       isLocal := Some true; createdAt := 1700000000000%Z;
       lastUpdated := Some (js "Tue, 14 Nov 2023") |} in
  let guarded := sample_source (Some AuthBearer) (Some (js "t0k3n")) None None None in
  let busy := pool_step (PoolAdd 3%nat) loaded_engine in
  updateWasmSource renamed busy = busy
  /\ wasmModule (updateWasmSource guarded busy) = None
  /\ activeInstances (updateWasmSource guarded busy) = ∅
  /\ isInitialized (updateWasmSource guarded busy) = false
  /\ wasmSource (updateWasmSource guarded busy) = guarded.
Proof.
  intros renamed guarded busy. split.
  - apply (proj1 (updateWasmSource_effect renamed busy)).
    vm_compute. repeat split; reflexivity.
  - assert (Hd : ~ same_configuration (wasmSource busy) guarded).
    { intros (Hu & _). vm_compute in Hu. discriminate. }
    destruct (proj2 (updateWasmSource_effect guarded busy) Hd) as (H1 & H2 & H3 & H4 & _).
    repeat split; assumption.
Defined.

(** * The authentication header *)

Lemma split_go_absent (cur s : jsstring) :
  contains [58; 32] s = false -> split_go [58; 32] 0 cur s = [rev cur ++ s].
Proof.
  revert cur. induction s as [|c r IH]; intros cur Hc.
  - simpl. rewrite app_nil_r. reflexivity.
  - cbn [contains] in Hc. apply orb_false_iff in Hc as [Hs Hr].
    cbn [split_go]. rewrite Hs. rewrite (IH (c :: cur) Hr).
    simpl. rewrite <- app_assoc. reflexivity.
Qed.

Lemma starts_with_colon_space_app (key rest : jsstring) :
  key <> [] ->
  starts_with [58; 32] key = false ->
  starts_with [58; 32] (key ++ 58 :: 32 :: rest) = false.
Proof.
  destruct key as [|c [|d k]]; [congruence | |]; intros _ Hs.
  - cbn [app starts_with]. apply andb_false_iff. right. reflexivity.
  - cbn [app starts_with] in *. exact Hs.
Qed.

Lemma split_go_key_value (cur key value : jsstring) :
  contains [58; 32] key = false ->
  contains [58; 32] value = false ->
  split_go [58; 32] 0 cur (key ++ 58 :: 32 :: value) = [rev cur ++ key; value].
Proof.
  revert cur. induction key as [|c k IH]; intros cur Hk Hv.
  - simpl. rewrite app_nil_r. f_equal. exact (split_go_absent [] value Hv).
  - cbn [contains] in Hk. apply orb_false_iff in Hk as [Hs Hk].
    change ((c :: k) ++ 58 :: 32 :: value) with (c :: (k ++ 58 :: 32 :: value)).
    cbn [split_go].
    pose proof (starts_with_colon_space_app (c :: k) value ltac:(discriminate) Hs) as Hs'.
    change ((c :: k) ++ 58 :: 32 :: value) with (c :: (k ++ 58 :: 32 :: value)) in Hs'.
    rewrite Hs'. rewrite (IH (c :: cur) Hk Hv).
    simpl. rewrite <- app_assoc. reflexivity.
Qed.

Lemma nonempty_ne (s : jsstring) : s <> [] -> nonempty (Some s) = Some s.
Proof. destruct s; [congruence | reflexivity]. Qed.

(** C9, as the code has it.  For the schemes none and presigned, and
    for a descriptor without a scheme, no header is added.  For bearer
    with a non-empty token the one header Authorization: Bearer token is
    set.  For basic with a non-empty user name and a non-empty password,
    when every character of both is a Latin-1 character, the one header
    Authorization: Basic followed by the base64 of user:pass is set;
    when one of them has a character outside Latin-1 the encoder throws
    and no headers are built at all.  For bearer or basic with a missing
    or empty credential nothing is added.  For header, a stored string
    made of a non-empty key, one colon-space and a non-empty value, with
    no colon-space inside the key or the value, sets the one header of
    the trimmed key to the trimmed value when the trimmed key is not
    [__proto__], and adds nothing when it is. *)
Theorem auth_headers (source : WasmSource) (headers : Headers) :
  (authType source = None \/ authType source = Some AuthNone
   \/ authType source = Some AuthPresigned ->
   addAuthHeaders source headers = Returned headers)
  /\ (forall token,
        authType source = Some AuthBearer -> authToken source = Some token -> token <> [] ->
        addAuthHeaders source headers
        = Returned (<[js "Authorization" := js "Bearer " ++ token]> headers))
  /\ (forall user pass,
        authType source = Some AuthBasic ->
        authUsername source = Some user -> authPassword source = Some pass ->
        user <> [] -> pass <> [] -> is_latin1 (user ++ js ":" ++ pass) = true ->
        addAuthHeaders source headers
        = Returned (<[js "Authorization" :=
                       js "Basic " ++ b64_encode (user ++ js ":" ++ pass)]> headers))
  /\ (authType source = Some AuthBearer -> nonempty (authToken source) = None ->
      addAuthHeaders source headers = Returned headers)
  /\ (authType source = Some AuthBasic ->
      nonempty (authUsername source) = None \/ nonempty (authPassword source) = None ->
      addAuthHeaders source headers = Returned headers)
  /\ (forall key value,
        authType source = Some AuthHeader ->
        authHeader source = Some (key ++ js ": " ++ value) ->
        key <> [] -> value <> [] ->
        contains (js ": ") key = false -> contains (js ": ") value = false ->
        trim key <> js "__proto__" ->
        addAuthHeaders source headers = Returned (<[trim key := trim value]> headers))
  /\ (forall user pass,
        authType source = Some AuthBasic ->
        authUsername source = Some user -> authPassword source = Some pass ->
        user <> [] -> pass <> [] -> is_latin1 (user ++ js ":" ++ pass) = false ->
        exists x, addAuthHeaders source headers = Threw x)
  /\ (forall key value,
        authType source = Some AuthHeader ->
        authHeader source = Some (key ++ js ": " ++ value) ->
        key <> [] -> value <> [] ->
        contains (js ": ") key = false -> contains (js ": ") value = false ->
        trim key = js "__proto__" ->
        addAuthHeaders source headers = Returned headers).
Proof.
  unfold addAuthHeaders. repeat apply conj.
  - intros [-> | [-> | ->]]; reflexivity.
  - intros token -> -> Ht. rewrite (nonempty_ne _ Ht). reflexivity.
  - intros user pass -> -> -> Hu Hp Hl.
    rewrite (nonempty_ne _ Hu), (nonempty_ne _ Hp). unfold btoa. rewrite Hl. reflexivity.
  - intros -> ->. reflexivity.
  - intros -> [Hn | Hn]; rewrite Hn; [reflexivity |].
    destruct (nonempty (authUsername source)); reflexivity.
  - intros key value -> -> Hk Hv Hck Hcv Hproto.
    assert (Hne : key ++ js ": " ++ value <> []) by (destruct key; [congruence | discriminate]).
    rewrite (nonempty_ne _ Hne). unfold js_split.
    change (js ": ") with [58; 32] in *.
    change (key ++ [58; 32] ++ value) with (key ++ 58 :: 32 :: value).
    rewrite (split_go_key_value [] key value Hck Hcv).
    cbn [rev app take lookup list_lookup].
    rewrite (nonempty_ne _ Hk), (nonempty_ne _ Hv).
    unfold set_header, str_eqb. rewrite bool_decide_eq_false_2 by exact Hproto.
    reflexivity.
  - intros user pass -> -> -> Hu Hp Hl.
    rewrite (nonempty_ne _ Hu), (nonempty_ne _ Hp). unfold btoa. rewrite Hl.
    eexists. reflexivity.
  - intros key value -> -> Hk Hv Hck Hcv Hproto.
    assert (Hne : key ++ js ": " ++ value <> []) by (destruct key; [congruence | discriminate]).
    rewrite (nonempty_ne _ Hne). unfold js_split.
    change (js ": ") with [58; 32] in *.
    change (key ++ [58; 32] ++ value) with (key ++ 58 :: 32 :: value).
    rewrite (split_go_key_value [] key value Hck Hcv).
    cbn [rev app take lookup list_lookup].
    rewrite (nonempty_ne _ Hk), (nonempty_ne _ Hv).
    unfold set_header, str_eqb. rewrite bool_decide_eq_true_2 by exact Hproto.
    reflexivity.
Qed.

(** One descriptor for each case of the builder. *)
Lemma auth_headers_witness :
  addAuthHeaders (sample_source (Some AuthBearer) (Some (js "t0k3n")) None None None) ∅
  = Returned {[ js "Authorization" := js "Bearer t0k3n" ]}
  /\ addAuthHeaders
       (sample_source (Some AuthBasic) None None (Some (js "user")) (Some (js "pass"))) ∅
     = Returned {[ js "Authorization" := js "Basic dXNlcjpwYXNz" ]}
  /\ addAuthHeaders
       (sample_source (Some AuthHeader) None (Some (js "X-Api-Key: secret")) None None) ∅
     = Returned {[ js "X-Api-Key" := js "secret" ]}
  /\ addAuthHeaders (sample_source (Some AuthPresigned) None None None None) ∅ = Returned ∅
  /\ addAuthHeaders (sample_source (Some AuthBearer) None None None None) ∅ = Returned ∅
  /\ addAuthHeaders (sample_source (Some AuthBasic) None None (Some (js "user")) None) ∅
     = Returned ∅
  /\ (exists x,
        addAuthHeaders
          (sample_source (Some AuthBasic) None None (Some (js "user")) (Some [8364])) ∅
        = Threw x)
  /\ addAuthHeaders
       (sample_source (Some AuthHeader) None (Some (js "__proto__: x")) None None) ∅
     = Returned ∅.
Proof.
  repeat apply conj.
  - apply (proj1 (proj2 (auth_headers _ ∅)) (js "t0k3n")); [reflexivity | reflexivity | discriminate].
  - apply (proj1 (proj2 (proj2 (auth_headers _ ∅))) (js "user") (js "pass"));
      [reflexivity | reflexivity | reflexivity | discriminate | discriminate | reflexivity].
  - apply (proj1 (proj2 (proj2 (proj2 (proj2 (proj2 (auth_headers _ ∅))))))
             (js "X-Api-Key") (js "secret"));
      [reflexivity | reflexivity | discriminate | discriminate | reflexivity | reflexivity
       | vm_compute; discriminate].
  - apply (proj1 (auth_headers _ ∅)). right. right. reflexivity.
  - apply (proj1 (proj2 (proj2 (proj2 (auth_headers _ ∅))))); reflexivity.
  - apply (proj1 (proj2 (proj2 (proj2 (proj2 (auth_headers _ ∅)))))); [reflexivity |].
    right. reflexivity.
  - apply (proj1 (proj2 (proj2 (proj2 (proj2 (proj2 (proj2 (auth_headers _ ∅)))))))
             (js "user") [8364]);
      [reflexivity | reflexivity | reflexivity | discriminate | discriminate | reflexivity].
  - apply (proj2 (proj2 (proj2 (proj2 (proj2 (proj2 (proj2 (auth_headers _ ∅)))))))
             (js "__proto__") (js "x"));
      [reflexivity | reflexivity | discriminate | discriminate | reflexivity | reflexivity
       | reflexivity].
Defined.

(** C9, as worded, fails on four descriptors.  Basic authentication with
    a user name and an empty password sends no header at all, where the
    wording has Authorization: Basic with the base64 of the user name
    and a colon.  A stored header whose value itself contains a
    colon-space loses everything from that second separator on, where
    splitting on the first separator keeps it.  A password with a euro
    sign makes the encoder throw, so that there are no headers, where
    the wording has an Authorization header.  And the stored header
    [__proto__: x] sets nothing, where the wording has the header
    [__proto__]. *)
Lemma auth_headers_differ_from_wording :
  let no_password := sample_source (Some AuthBasic) None None (Some (js "user")) (Some []) in
  let long_value :=
    sample_source (Some AuthHeader) None (Some (js "X-Forwarded: for: 10.0.0.1")) None None in
  let euro := sample_source (Some AuthBasic) None None (Some (js "user")) (Some [8364]) in
  let proto := sample_source (Some AuthHeader) None (Some (js "__proto__: x")) None None in
  addAuthHeaders no_password ∅ = Returned ∅
  /\ spec_addAuthHeaders no_password ∅ = {[ js "Authorization" := js "Basic dXNlcjo=" ]}
  /\ addAuthHeaders long_value ∅ = Returned {[ js "X-Forwarded" := js "for" ]}
  /\ spec_addAuthHeaders long_value ∅ = {[ js "X-Forwarded" := js "for: 10.0.0.1" ]}
  /\ (exists x, addAuthHeaders euro ∅ = Threw x)
  /\ is_Some (spec_addAuthHeaders euro ∅ !! js "Authorization")
  /\ addAuthHeaders proto ∅ = Returned ∅
  /\ spec_addAuthHeaders proto ∅ = {[ js "__proto__" := js "x" ]}.
Proof.
  repeat apply conj; try (vm_compute; reflexivity); eexists; vm_compute; reflexivity.
Qed.

(** * The admission of instances *)

(** C1, evaluated.  On a loaded engine with the cap of 2, three
    inference requests made in one turn all pass the test of the active
    count, which is 0 for each, and once their instantiations complete
    three instances are active.  A request that arrives while two
    instances are active is delayed, by 100 ms; when the delay has
    elapsed it is instantiated and registered whatever the active set
    then is, without a second look at the count. *)
Theorem pool_exceeds_cap :
  maxConcurrentInstances (engine (pool_events pool_start three_at_once)) = 2%nat
  /\ activeInstances (engine (pool_events pool_start three_at_once))
     = {[10%nat; 11%nat; 12%nat]}
  /\ size (activeInstances (engine (pool_events pool_start three_at_once))) = 3%nat
  /\ size (activeInstances (engine (pool_events pool_start arrival_at_cap))) = 2%nat
  /\ match delayed_task with
     | Ext (Sleep 100) _ => True
     | _ => False
     end
  /\ (forall (a : gset nat) (i : Instance),
        activeInstances (after_delay a i) = {[i]} ∪ a).
Proof.
  repeat apply conj.
  - vm_compute. reflexivity.
  - vm_compute. reflexivity.
  - vm_compute. reflexivity.
  - vm_compute. reflexivity.
  - vm_compute. exact I.
  - intros a i. unfold after_delay.
    set (t := delayed_task). vm_compute in t. subst t.
    cbn. reflexivity.
Qed.

(** * The single-flight grammar cache *)

Import GrammarCache.

Lemma count_rejected_app ls l :
  count_rejected (ls ++ [l]) = (count_rejected ls + (if is_rejected l then 1 else 0))%nat.
Proof. induction ls as [|a r IH]; simpl; [lia | rewrite IH; lia]. Qed.

Lemma count_rejected_insert ls p old new :
  ls !! p = Some old ->
  (count_rejected (<[p := new]> ls) + (if is_rejected old then 1 else 0)
   = count_rejected ls + (if is_rejected new then 1 else 0))%nat.
Proof.
  revert p. induction ls as [|a r IH]; intros [|p] Hp; simpl in *; try discriminate.
  - injection Hp as ->. lia.
  - specialize (IH p Hp). lia.
Qed.

Lemma unsettled_not_rejected l : settled l = false -> is_rejected l = false.
Proof. destruct l; simpl; congruence. Qed.

Lemma caller_ok_weaken ps ps' d d' c :
  (forall p l, ps !! p = Some l -> settled l = true -> ps' !! p = Some l) ->
  (length ps <= length ps')%nat ->
  (forall r, d = Some r -> d' = Some r) ->
  caller_ok ps d c -> caller_ok ps' d' c.
Proof.
  intros Hkeep Hlen Hd. destruct c as [p | [p|] [r|]]; simpl.
  - lia.
  - intros Hp. apply Hkeep; [exact Hp | reflexivity].
  - intros [x Hx]. exists x. apply Hkeep; [exact Hx | reflexivity].
  - apply Hd.
  - trivial.
Qed.

Lemma initial_invariant : invariant initial.
Proof.
  split; simpl; intros.
  - discriminate.
  - discriminate.
  - split; [discriminate | intros (p & Hp); discriminate].
  - reflexivity.
  - discriminate.
Qed.

Lemma live_cached s p l :
  promise s = Some p -> promises s !! p = Some l ->
  live s = if is_rejected l then 0%nat else 1%nat.
Proof. unfold live. intros -> ->. reflexivity. Qed.

Lemma live_none s : promise s = None -> live s = 0%nat.
Proof. unfold live. intros ->. reflexivity. Qed.

(** A pending promise moves on to a state that is neither a rejection
    nor a fulfilment. *)
Lemma progress_invariant s p old new :
  invariant s -> promises s !! p = Some old -> settled old = false ->
  is_rejected new = false -> (forall r, new <> Fulfilled r) ->
  forall reg, invariant {| promise := promise s; data := data s; registry := reg;
               promises := <[p := new]> (promises s); callers := callers s |}.
Proof.
  intros [Hp Hk Hd Hn Hc] Hold Hun Hnew Hnf reg.
  assert (Hlt : (p < length (promises s))%nat) by (eapply lookup_lt_Some; eassumption).
  assert (Hcur : promise s = Some p).
  { eapply Hp; eauto using unsettled_not_rejected. }
  split; simpl.
  - intros q l Hq Hl. destruct (decide (p = q)) as [<- | Hne]; [exact Hcur |].
    rewrite list_lookup_insert_ne in Hq by exact Hne. eauto.
  - intros q Hq. rewrite length_insert. auto.
  - intros r. rewrite Hd. split; intros (q & Hq).
    + exists q. rewrite list_lookup_insert_ne; [exact Hq |].
      intros ->. rewrite Hold in Hq. injection Hq as ->. discriminate.
    + destruct (decide (p = q)) as [<- | Hne].
      * rewrite list_lookup_insert_eq in Hq by exact Hlt. congruence.
      * rewrite list_lookup_insert_ne in Hq by exact Hne. eauto.
  - rewrite (live_cached s p old Hcur Hold), (unsettled_not_rejected _ Hun) in Hn.
    unfold live. simpl. rewrite Hcur, list_lookup_insert_eq by exact Hlt. rewrite Hnew.
    unfold loader_calls, failed_loads in *. simpl. rewrite length_insert.
    pose proof (count_rejected_insert _ _ _ new Hold) as Hcnt.
    rewrite (unsettled_not_rejected _ Hun), Hnew in Hcnt. lia.
  - intros i c Hi. eapply caller_ok_weaken; [| | | exact (Hc i c Hi)]; auto.
    + intros q l Hq Hs. rewrite list_lookup_insert_ne; [exact Hq |].
      intros ->. rewrite Hold in Hq. injection Hq as ->. congruence.
    + rewrite length_insert. lia.
Qed.

Lemma fail_invariant s p old x :
  invariant s -> promises s !! p = Some old -> settled old = false ->
  invariant (fail_load p x s).
Proof.
  intros [Hp Hk Hd Hn Hc] Hold Hun.
  assert (Hlt : (p < length (promises s))%nat) by (eapply lookup_lt_Some; eassumption).
  assert (Hcur : promise s = Some p).
  { eapply Hp; eauto using unsettled_not_rejected. }
  split; simpl.
  - intros q l Hl Hr. exfalso.
    destruct (decide (p = q)) as [<- | Hne].
    + rewrite list_lookup_insert_eq in Hl by exact Hlt. injection Hl as <-. discriminate.
    + rewrite list_lookup_insert_ne in Hl by exact Hne.
      assert (promise s = Some q) by eauto. congruence.
  - discriminate.
  - intros r. rewrite Hd. split; intros (q & Hq).
    + exists q. rewrite list_lookup_insert_ne; [exact Hq |].
      intros ->. rewrite Hold in Hq. injection Hq as ->. discriminate.
    + destruct (decide (p = q)) as [<- | Hne].
      * rewrite list_lookup_insert_eq in Hq by exact Hlt. discriminate.
      * rewrite list_lookup_insert_ne in Hq by exact Hne. eauto.
  - rewrite (live_cached s p old Hcur Hold), (unsettled_not_rejected _ Hun) in Hn.
    rewrite (live_none (fail_load p x s) eq_refl).
    unfold loader_calls, failed_loads in *. simpl. rewrite length_insert.
    pose proof (count_rejected_insert _ _ _ (Rejected x) Hold) as Hcnt.
    rewrite (unsettled_not_rejected _ Hun) in Hcnt. simpl in Hcnt. lia.
  - intros i c Hi. eapply caller_ok_weaken; [| | | exact (Hc i c Hi)]; auto.
    + intros q l Hq Hs. rewrite list_lookup_insert_ne; [exact Hq |].
      intros ->. rewrite Hold in Hq. injection Hq as ->. congruence.
    + rewrite length_insert. lia.
Qed.

Lemma unsettled_no_data s p l :
  invariant s -> promises s !! p = Some l -> settled l = false -> data s = None.
Proof.
  intros [Hp _ Hd _ _] Hl Hun.
  destruct (data s) as [r|] eqn:Hdata; [|reflexivity].
  destruct (proj1 (Hd r) eq_refl) as (q & Hq).
  assert (promise s = Some q) by (eapply Hp; [exact Hq | reflexivity]).
  assert (promise s = Some p) by (eapply Hp; eauto using unsettled_not_rejected).
  assert (q = p) by congruence. subst q. rewrite Hl in Hq. injection Hq as ->. discriminate.
Qed.

Lemma finish_invariant s p r :
  invariant s -> promises s !! p = Some (Registered r) ->
  invariant (finish_load p r s).
Proof.
  intros Hinv Hold. pose proof (unsettled_no_data s p _ Hinv Hold eq_refl) as Hnone.
  destruct Hinv as [Hp Hk Hd Hn Hc].
  assert (Hlt : (p < length (promises s))%nat) by (eapply lookup_lt_Some; eassumption).
  assert (Hcur : promise s = Some p) by (eapply Hp; [exact Hold | reflexivity]).
  split; simpl.
  - intros q l Hq Hl. destruct (decide (p = q)) as [<- | Hne]; [exact Hcur |].
    rewrite list_lookup_insert_ne in Hq by exact Hne. eauto.
  - intros q Hq. rewrite length_insert. auto.
  - intros r'. split.
    + intros [= <-]. exists p. apply list_lookup_insert_eq. exact Hlt.
    + intros (q & Hq). destruct (decide (p = q)) as [<- | Hne].
      * rewrite list_lookup_insert_eq in Hq by exact Hlt. congruence.
      * rewrite list_lookup_insert_ne in Hq by exact Hne.
        assert (data s = Some r') by (apply Hd; eauto). congruence.
  - rewrite (live_cached s p _ Hcur Hold) in Hn.
    unfold live. simpl. rewrite Hcur, list_lookup_insert_eq by exact Hlt.
    unfold loader_calls, failed_loads in *. simpl in *. rewrite length_insert.
    pose proof (count_rejected_insert _ _ _ (Fulfilled r) Hold) as Hcnt.
    simpl in Hcnt. lia.
  - intros i c Hi. eapply caller_ok_weaken; [| | | exact (Hc i c Hi)].
    + intros q l Hq Hs. rewrite list_lookup_insert_ne; [exact Hq |].
      intros ->. rewrite Hold in Hq. injection Hq as <-. discriminate.
    + rewrite length_insert. lia.
    + congruence.
Qed.

Lemma add_caller_invariant s c :
  invariant s -> caller_ok (promises s) (data s) c -> invariant (add_caller c s).
Proof.
  intros [Hp Hk Hd Hn Hc] Hok. split; simpl; auto.
  intros i c' Hi. apply lookup_app_Some in Hi as [Hi | [_ Hi]]; [eauto |].
  apply list_lookup_singleton_Some in Hi as [_ <-]. exact Hok.
Qed.

Lemma mount_invariant s enabled thrown :
  invariant s -> invariant (loadTextMateGrammar enabled thrown s).
Proof.
  intros Hinv. unfold loadTextMateGrammar.
  destruct enabled; simpl; [| apply add_caller_invariant; simpl; auto].
  destruct (data s) as [d|] eqn:Hdata; [apply add_caller_invariant; simpl; auto |].
  destruct (promise s) as [p|] eqn:Hprom.
  - apply add_caller_invariant; [exact Hinv |]. simpl.
    exact (inv_cached s Hinv p Hprom).
  - apply add_caller_invariant.
    + destruct Hinv as [Hp Hk Hd Hn Hc]. split; simpl.
      * intros q l Hl Hr. apply lookup_app_Some in Hl as [Hl | [Hge Hl]].
        -- assert (promise s = Some q) by eauto. congruence.
        -- apply list_lookup_singleton_Some in Hl as [Hz _]. f_equal. lia.
      * intros q [= <-]. rewrite length_app. simpl. lia.
      * intros r. split; [discriminate |]. intros (q & Hq).
        apply lookup_app_Some in Hq as [Hq | [_ Hq]].
        -- pose proof (proj2 (Hd r) (ex_intro _ q Hq)). congruence.
        -- apply list_lookup_singleton_Some in Hq as [_ Hq].
           destruct thrown; discriminate.
      * rewrite (live_none s Hprom) in Hn.
        unfold live. simpl. rewrite lookup_app_r by lia. rewrite Nat.sub_diag. simpl.
        unfold loader_calls, failed_loads in *. simpl.
        rewrite length_app, count_rejected_app. simpl.
        destruct thrown; simpl; lia.
      * intros i c Hi. eapply caller_ok_weaken; [| | | exact (Hc i c Hi)]; auto.
        -- intros q l Hq _. apply lookup_app_l_Some. exact Hq.
        -- rewrite length_app. lia.
        -- congruence.
    + simpl. rewrite length_app. simpl. lia.
Qed.

Lemma resume_invariant s i p v :
  invariant s -> caller_ok (promises s) (data s) (Done (Some p) v) ->
  invariant {| promise := promise s; data := data s; registry := registry s;
               promises := promises s;
               callers := <[i := Done (Some p) v]> (callers s) |}.
Proof.
  intros [Hp Hk Hd Hn Hc] Hok. split; simpl; auto.
  intros j c Hj. destruct (decide (i = j)) as [<- | Hne].
  - apply list_lookup_insert_Some in Hj as [(_ & <- & _) | (Hne & _)]; [exact Hok | congruence].
  - rewrite list_lookup_insert_ne in Hj by exact Hne. eauto.
Qed.

Lemma step_invariant s ev s' : invariant s -> step s ev = Some s' -> invariant s'.
Proof.
  intros Hinv. destruct ev as [enabled thrown | p o | p f | p f | p | i]; simpl.
  - intros [= <-]. apply mount_invariant. exact Hinv.
  - destruct (promises s !! p) as [[]|] eqn:Hl; try discriminate.
    destruct o as [r | x]; intros [= <-].
    + apply (progress_invariant s p Requesting _ Hinv Hl eq_refl);
        destruct (registry s); (reflexivity || discriminate).
    + exact (fail_invariant s p _ x Hinv Hl eq_refl).
  - destruct (promises s !! p) as [[]|] eqn:Hl; try discriminate.
    destruct f as [x|]; intros [= <-].
    + apply (progress_invariant s p _ (RegisterFailed x) Hinv Hl eq_refl);
        (reflexivity || discriminate).
    + apply (progress_invariant s p _ (LoadingGrammar r) Hinv Hl eq_refl);
        (reflexivity || discriminate).
  - destruct (promises s !! p) as [[]|] eqn:Hl; try discriminate.
    destruct f as [x|]; intros [= <-].
    + apply (progress_invariant s p _ (RegisterFailed x) Hinv Hl eq_refl);
        (reflexivity || discriminate).
    + apply (progress_invariant s p _ (Registered r) Hinv Hl eq_refl);
        (reflexivity || discriminate).
  - destruct (promises s !! p) as [[]|] eqn:Hl; try discriminate; intros [= <-].
    + apply finish_invariant; assumption.
    + exact (fail_invariant s p _ x Hinv Hl eq_refl).
  - destruct (callers s !! i) as [[p|]|] eqn:Hi; try discriminate.
    destruct (promises s !! p) as [[]|] eqn:Hl; try discriminate; intros [= <-].
    + apply resume_invariant; [exact Hinv | exact Hl].
    + apply resume_invariant; [exact Hinv | simpl; eauto].
Qed.

Lemma reachable_invariant s : reachable s -> invariant s.
Proof.
  induction 1 as [| s ev s' _ IH Hstep]; [apply initial_invariant |].
  eapply step_invariant; eassumption.
Qed.

Lemma replay_reachable evs : forall s s', reachable s -> replay s evs = Some s' -> reachable s'.
Proof.
  induction evs as [|ev r IH]; simpl; intros s s' Hs.
  - intros [= <-]. exact Hs.
  - destruct (step s ev) as [s1|] eqn:Hstep; [|discriminate].
    apply IH. eapply reach_step; eassumption.
Qed.

Lemma join_in_flight p (ms : list (bool * option Thrown)) : forall s,
  promise s = Some p -> data s = None ->
  exists s', replay s (GrammarEvents.mount <$> ms) = Some s'
             /\ promises s' = promises s
             /\ callers s' = callers s ++ ((fun m => joined p m.1) <$> ms).
Proof.
  induction ms as [|[b t] r IH]; intros s Hp Hd.
  - exists s. simpl. rewrite app_nil_r. auto.
  - assert (Hm : loadTextMateGrammar b t s = add_caller (joined p b) s).
    { unfold loadTextMateGrammar. destruct b; simpl; [rewrite Hd, Hp |]; reflexivity. }
    destruct (IH (add_caller (joined p b) s) Hp Hd) as (s' & Hr & Hps & Hcs).
    exists s'.
    change (GrammarEvents.mount <$> (b, t) :: r) with (Mount b t :: (GrammarEvents.mount <$> r)).
    cbn [replay step]. rewrite Hm, Hr, Hps, Hcs. simpl. rewrite <- app_assoc. auto.
Qed.

Lemma mount_keeps_promises s b t p l :
  promises s !! p = Some l -> promises (loadTextMateGrammar b t s) !! p = Some l.
Proof.
  intros Hl. unfold loadTextMateGrammar.
  destruct b; simpl; [| exact Hl].
  destruct (data s); simpl; [exact Hl |].
  destruct (promise s); simpl; [exact Hl |].
  apply lookup_app_l_Some. exact Hl.
Qed.

Lemma insert_not_rejected (ps : list LoadState) q new p l x :
  ps !! p = Some l -> settled l = false -> is_rejected new = false ->
  <[q := new]> ps !! p = Some (Rejected x) -> False.
Proof.
  intros Hl Hun Hnew Hr. destruct (decide (q = p)) as [-> | Hne].
  - rewrite list_lookup_insert_eq in Hr by (eapply lookup_lt_Some; eassumption).
    injection Hr as ->. discriminate.
  - rewrite list_lookup_insert_ne in Hr by exact Hne.
    rewrite Hl in Hr. injection Hr as ->. discriminate.
Qed.

(** The only step that rejects a pending promise is the [catch] of its load. *)
Lemma rejection_clears s ev s' p l x :
  step s ev = Some s' -> promises s !! p = Some l -> settled l = false ->
  promises s' !! p = Some (Rejected x) ->
  promise s' = None /\ data s' = data s.
Proof.
  intros Hstep Hl Hun Hr.
  destruct ev as [enabled thrown | q o | q f | q f | q | i]; simpl in Hstep.
  - injection Hstep as <-. rewrite (mount_keeps_promises s enabled thrown p l Hl) in Hr.
    injection Hr as ->. discriminate.
  - destruct (promises s !! q) as [[]|] eqn:Hq; try discriminate.
    destruct o as [r | y]; injection Hstep as <-; simpl in *.
    + exfalso. eapply (insert_not_rejected (promises s)); [exact Hl | exact Hun | | exact Hr].
      destruct (registry s); reflexivity.
    + auto.
  - destruct (promises s !! q) as [[]|] eqn:Hq; try discriminate.
    destruct f as [y|]; injection Hstep as <-; simpl in *;
      exfalso; (eapply (insert_not_rejected (promises s)); [exact Hl | exact Hun | | exact Hr]);
      reflexivity.
  - destruct (promises s !! q) as [[]|] eqn:Hq; try discriminate.
    destruct f as [y|]; injection Hstep as <-; simpl in *;
      exfalso; (eapply (insert_not_rejected (promises s)); [exact Hl | exact Hun | | exact Hr]);
      reflexivity.
  - destruct (promises s !! q) as [[]|] eqn:Hq; try discriminate;
      injection Hstep as <-; simpl in *.
    + exfalso. eapply (insert_not_rejected (promises s)); [exact Hl | exact Hun | | exact Hr].
      reflexivity.
    + auto.
  - destruct (callers s !! i) as [[q|]|] eqn:Hi; try discriminate.
    destruct (promises s !! q) as [[]|] eqn:Hq; try discriminate;
      injection Hstep as <-; simpl in *; rewrite Hl in Hr; injection Hr as ->; discriminate.
Qed.

(** A cache whose promise is rejected stays as it is: no step touches
    the promise, the promises or the data. *)
Lemma stuck_step s ev s' p x :
  invariant s -> promise s = Some p -> promises s !! p = Some (Rejected x) ->
  step s ev = Some s' ->
  promise s' = Some p /\ promises s' = promises s /\ data s' = None
  /\ (length (callers s) <= length (callers s'))%nat
  /\ (forall n, (forall i c, callers s !! i = Some c -> (n <= i)%nat ->
                   GrammarEvents.gives_up p c) ->
                forall i c, callers s' !! i = Some c -> (n <= i)%nat ->
                  GrammarEvents.gives_up p c).
Proof.
  intros Hinv Hp Hx Hstep.
  assert (Hd : data s = None).
  { destruct (data s) as [r|] eqn:Hdata; [|reflexivity].
    destruct (proj1 (inv_data s Hinv r) Hdata) as (q & Hq).
    assert (promise s = Some q) by (eapply (inv_promise s Hinv); [exact Hq | reflexivity]).
    congruence. }
  assert (Hno : forall q l, promises s !! q = Some l -> is_rejected l = false -> False).
  { intros q l Hq Hl. assert (promise s = Some q) by (eapply (inv_promise s Hinv); eauto).
    assert (q = p) by congruence. subst q. rewrite Hx in Hq. injection Hq as <-. discriminate. }
  destruct ev as [b t | q [r|y] | q [y|] | q [y|] | q | i]; simpl in Hstep.
  - injection Hstep as <-. unfold loadTextMateGrammar.
    destruct b; simpl; [rewrite Hd, Hp |]; simpl; rewrite length_app; simpl;
      (repeat apply conj; [assumption | reflexivity | assumption | lia |]);
      intros n Hn i c Hc Hi; (apply lookup_app_Some in Hc as [Hc | [_ Hc]]; [eauto |]);
      apply list_lookup_singleton_Some in Hc as [_ <-];
      [left | right; right]; reflexivity.
  - destruct (promises s !! q) as [[]|] eqn:Hq; try discriminate. exfalso; eauto.
  - destruct (promises s !! q) as [[]|] eqn:Hq; try discriminate. exfalso; eauto.
  - destruct (promises s !! q) as [[]|] eqn:Hq; try discriminate. exfalso; eauto.
  - destruct (promises s !! q) as [[]|] eqn:Hq; try discriminate. exfalso; eauto.
  - destruct (promises s !! q) as [[]|] eqn:Hq; try discriminate. exfalso; eauto.
  - destruct (promises s !! q) as [[]|] eqn:Hq; try discriminate. exfalso; eauto.
  - destruct (promises s !! q) as [[]|] eqn:Hq; try discriminate; exfalso; eauto.
  - destruct (callers s !! i) as [[q|]|] eqn:Hi; try discriminate.
    destruct (promises s !! q) as [[]|] eqn:Hq; try discriminate;
      [exfalso; eauto |].
    injection Hstep as <-. simpl. rewrite length_insert.
    repeat apply conj; [assumption | reflexivity | assumption | lia |].
    intros n Hn j c Hc Hj. destruct (decide (i = j)) as [<- | Hne].
    + apply list_lookup_insert_Some in Hc as [(_ & <- & _) | (Hne & _)]; [| congruence].
      destruct (Hn i _ Hi Hj) as [[= ->] | [[=] | [=]]]. right. left. reflexivity.
    + rewrite list_lookup_insert_ne in Hc by exact Hne. eauto.
Qed.

(** C3, at a call of the engine that throws at once.  The design
    document has a failed load clear the cached promise, and the [catch]
    of lines 114-117 does set it to null; but when the call of line 102
    throws before anything is awaited, the [catch] has run when line 100
    assigns, and what is assigned is the rejected promise.  From any
    state the cache can reach with no promise and no data, such a call
    leaves the rejected promise cached, and whatever happens afterwards
    it stays: no promise is made again, so the engine is not asked again,
    no data is ever cached, and every later call waits for that promise
    and gives up, or has syntax highlighting disabled. *)
Theorem rejected_promise_stays_cached (s : State) (x : Thrown) :
  reachable s -> promise s = None -> data s = None ->
  let p := length (promises s) in
  let s1 := loadTextMateGrammar true (Some x) s in
  promise s1 = Some p
  /\ promises s1 = promises s ++ [Rejected x]
  /\ loader_calls s1 = S (loader_calls s)
  /\ forall evs s', replay s1 evs = Some s' ->
       promise s' = Some p
       /\ promises s' = promises s1
       /\ data s' = None
       /\ loader_calls s' = loader_calls s1
       /\ (forall i c, callers s' !! i = Some c -> (length (callers s) <= i)%nat ->
             GrammarEvents.gives_up p c).
Proof.
  intros Hreach Hp Hd p s1.
  assert (Hreach1 : reachable s1) by (apply (reach_step s (Mount true (Some x))); auto).
  assert (Hs1 : s1 = add_caller (Waiting p)
                       {| promise := Some p; data := data s; registry := registry s;
                          promises := promises s ++ [Rejected x]; callers := callers s |}).
  { unfold s1, loadTextMateGrammar. simpl. rewrite Hd, Hp. reflexivity. }
  assert (Hx : promises s1 !! p = Some (Rejected x)).
  { rewrite Hs1. simpl. unfold p. rewrite lookup_app_r by lia.
    rewrite Nat.sub_diag. reflexivity. }
  assert (Hp1 : promise s1 = Some p) by (rewrite Hs1; reflexivity).
  assert (Hc1 : forall i c, callers s1 !! i = Some c -> (length (callers s) <= i)%nat ->
                  GrammarEvents.gives_up p c).
  { rewrite Hs1. simpl. intros i c Hc Hi.
    apply lookup_app_Some in Hc as [Hc | [_ Hc]]; [apply lookup_lt_Some in Hc; lia |].
    apply list_lookup_singleton_Some in Hc as [_ <-]. left. reflexivity. }
  repeat apply conj.
  - exact Hp1.
  - rewrite Hs1. reflexivity.
  - rewrite Hs1. unfold loader_calls. simpl. rewrite length_app. simpl. lia.
  - clearbody s1. clear Hs1. revert Hreach1 Hx Hp1 Hc1. generalize (length (callers s)).
    intros n Hreach1 Hx Hp1 Hc1 evs. revert s1 Hreach1 Hx Hp1 Hc1.
    induction evs as [|ev evs IH]; intros s1 Hreach1 Hx Hp1 Hc1 s' Hrun; simpl in Hrun.
    + injection Hrun as <-.
      repeat apply conj; [exact Hp1 | reflexivity | | reflexivity | exact Hc1].
      destruct (data s1) as [r|] eqn:Hdata; [|reflexivity].
      destruct (proj1 (inv_data s1 (reachable_invariant s1 Hreach1) r) Hdata) as (q & Hq).
      assert (promise s1 = Some q)
        by (eapply (inv_promise s1 (reachable_invariant s1 Hreach1)); [exact Hq | reflexivity]).
      congruence.
    + destruct (step s1 ev) as [s2|] eqn:Hstep; [|discriminate].
      destruct (stuck_step s1 ev s2 p x (reachable_invariant s1 Hreach1) Hp1 Hx Hstep)
        as (Hp2 & Hps & _ & _ & Hc2).
      assert (Hx2 : promises s2 !! p = Some (Rejected x)) by (rewrite Hps; exact Hx).
      destruct (IH s2 (reach_step s1 ev s2 Hreach1 Hstep) Hx2 Hp2 (Hc2 n Hc1) s' Hrun)
        as (H1 & H2 & H3 & H4 & H5).
      unfold loader_calls in *.
      repeat apply conj; [exact H1 | congruence | exact H3 | congruence | exact H5].
Qed.

(** Three editors, one after the other, on an engine without the
    method: the engine is asked once, the rejected promise stays cached,
    and each editor gives up. *)
Lemma rejected_promise_witness :
  let stuck := default initial (replay initial GrammarSamples.never_retried) in
  promise stuck = Some 0%nat
  /\ promises stuck = [Rejected GrammarSamples.not_a_function]
  /\ loader_calls stuck = 1%nat
  /\ callers stuck = [Done (Some 0%nat) None; Done (Some 0%nat) None; Done (Some 0%nat) None].
Proof.
  intros stuck.
  destruct (rejected_promise_stays_cached initial GrammarSamples.not_a_function
              reach_initial eq_refl eq_refl) as (_ & _ & _ & Hstay).
  destruct (Hstay (tl GrammarSamples.never_retried) stuck ltac:(vm_compute; reflexivity))
    as (Hp & Hps & _ & Hcalls & _).
  repeat apply conj; [exact Hp | exact Hps | exact Hcalls | vm_compute; reflexivity].
Defined.

(** X21.  In every state the cache can reach: a load in flight is the
    cached promise, there is no other, and no data is cached yet; the
    engine has been asked for the grammar once for each rejected promise
    and once more if the cached promise is pending or fulfilled; any
    number of calls made while a load is in flight, whatever their call
    of the engine would do, leave the number of requests unchanged and
    wait on that promise; a caller that awaited a promise reported the
    data the promise was fulfilled with, or nothing if it was rejected,
    so all callers of one promise report the same; a waiter of a settled
    promise resumes with that outcome; and the step that rejects a
    pending promise, one whose call of the engine had returned, leaves
    the cache empty, with no promise and no data, so that the next call
    asks the engine again. *)
Theorem single_flight (s : State) :
  reachable s ->
  (forall p l, promises s !! p = Some l -> settled l = false ->
     promise s = Some p /\ data s = None)
  /\ loader_calls s = (failed_loads s + live s)%nat
  /\ (forall p l (ms : list (bool * option Thrown)),
        promises s !! p = Some l -> settled l = false ->
        exists s', replay s (GrammarEvents.mount <$> ms) = Some s'
                   /\ loader_calls s' = loader_calls s
                   /\ callers s' = callers s ++ ((fun m => joined p m.1) <$> ms))
  /\ (forall i p v, callers s !! i = Some (Done (Some p) v) ->
        match v with
        | Some r => promises s !! p = Some (Fulfilled r)
        | None => exists x, promises s !! p = Some (Rejected x)
        end)
  /\ (forall i j p v1 v2,
        callers s !! i = Some (Done (Some p) v1) ->
        callers s !! j = Some (Done (Some p) v2) -> v1 = v2)
  /\ (forall i p l,
        callers s !! i = Some (Waiting p) -> promises s !! p = Some l -> settled l = true ->
        exists s', step s (CallerResumed i) = Some s'
                   /\ callers s' !! i
                      = Some (Done (Some p) match l with Fulfilled r => Some r | _ => None end))
  /\ (forall ev s' p l x,
        step s ev = Some s' -> promises s !! p = Some l -> settled l = false ->
        promises s' !! p = Some (Rejected x) ->
        promise s' = None /\ data s' = None
        /\ forall thrown,
             loader_calls (loadTextMateGrammar true thrown s') = S (loader_calls s')).
Proof.
  intros Hreach. pose proof (reachable_invariant s Hreach) as Hinv.
  assert (Hflight : forall p l, promises s !! p = Some l -> settled l = false ->
                      promise s = Some p /\ data s = None).
  { intros p l Hl Hun. split; [| eapply unsettled_no_data; eassumption].
    eapply (inv_promise s Hinv); eauto using unsettled_not_rejected. }
  assert (Hcall : forall i p v, callers s !! i = Some (Done (Some p) v) ->
                    match v with
                    | Some r => promises s !! p = Some (Fulfilled r)
                    | None => exists x, promises s !! p = Some (Rejected x)
                    end).
  { intros i p v Hi. pose proof (inv_callers s Hinv i _ Hi) as Hok. destruct v; exact Hok. }
  repeat apply conj.
  - exact Hflight.
  - exact (inv_calls s Hinv).
  - intros p l ms Hl Hun. destruct (Hflight p l Hl Hun) as [Hp Hd].
    destruct (join_in_flight p ms s Hp Hd) as (s' & Hr & Hps & Hcs).
    exists s'. unfold loader_calls. rewrite Hps. auto.
  - exact Hcall.
  - intros i j p v1 v2 Hi Hj. pose proof (Hcall i p v1 Hi) as H1.
    pose proof (Hcall j p v2 Hj) as H2.
    destruct v1 as [r1|], v2 as [r2|]; try congruence.
    + destruct H2 as [x H2]. congruence.
    + destruct H1 as [x H1]. congruence.
  - intros i p l Hi Hl Hs.
    assert (Hlt : (i < length (callers s))%nat) by (eapply lookup_lt_Some; eassumption).
    destruct l; try discriminate; simpl; rewrite Hi, Hl; eexists; (split; [reflexivity |]);
      simpl; apply list_lookup_insert_eq; exact Hlt.
  - intros ev s' p l x Hstep Hl Hun Hr.
    destruct (rejection_clears s ev s' p l x Hstep Hl Hun Hr) as [Hp Hd].
    destruct (Hflight p l Hl Hun) as [_ Hnone]. rewrite Hnone in Hd.
    repeat split; [exact Hp | exact Hd |].
    intros thrown. unfold loadTextMateGrammar, loader_calls. simpl. rewrite Hd, Hp. simpl.
    rewrite length_app. simpl. lia.
Qed.

(** The cache after a failed load and a successful retry. *)
Lemma single_flight_witness :
  loader_calls GrammarSamples.after_retry = 2%nat
  /\ failed_loads GrammarSamples.after_retry = 1%nat
  /\ promises GrammarSamples.after_retry !! 1%nat
     = Some (Fulfilled GrammarSamples.grammar_data)
  /\ (exists x, promises GrammarSamples.after_retry !! 0%nat = Some (Rejected x)).
Proof.
  assert (Hreach : reachable GrammarSamples.after_retry).
  { apply (replay_reachable GrammarSamples.failed_then_retried initial);
      [apply reach_initial | vm_compute; reflexivity]. }
  destruct (single_flight _ Hreach) as (_ & Hcalls & _ & Hcall & _ & _ & _).
  repeat apply conj.
  - rewrite Hcalls. vm_compute. reflexivity.
  - vm_compute. reflexivity.
  - apply (Hcall 2%nat 1%nat (Some GrammarSamples.grammar_data)). vm_compute. reflexivity.
  - apply (Hcall 0%nat 0%nat None). vm_compute. reflexivity.
Defined.

(** * Further properties of the engine *)

Lemma addAuthHeaders_auth_only (a b : WasmSource) h :
  authType a = authType b -> authToken a = authToken b -> authHeader a = authHeader b ->
  authUsername a = authUsername b -> authPassword a = authPassword b ->
  addAuthHeaders a h = addAuthHeaders b h.
Proof. unfold addAuthHeaders. intros -> -> -> -> ->. reflexivity. Qed.

(** X1.  [updateWasmUrl] with the current URL changes nothing.  With
    another URL it stores that URL, drops the compiled module, empties
    the active set and marks the engine uninitialized.  The source gets
    a new id, the decimal text of the clock at the first reading, and a
    new creation time, the clock at the second reading; its name, its
    five authentication fields, its local flag and its update stamp are
    those of the old source, and the buffer and the cap of the engine
    stay.  So the request headers stay, and the next run fetches the new
    URL with the headers of the old source. *)
Theorem updateWasmUrl_keeps_credentials newUrl now1 now2 e :
  (url (wasmSource e) = newUrl -> updateWasmUrl newUrl now1 now2 e = e)
  /\ (url (wasmSource e) <> newUrl ->
      url (wasmSource (updateWasmUrl newUrl now1 now2 e)) = newUrl
      /\ wasmModule (updateWasmUrl newUrl now1 now2 e) = None
      /\ isInitialized (updateWasmUrl newUrl now1 now2 e) = false
      /\ activeInstances (updateWasmUrl newUrl now1 now2 e) = ∅
      /\ requestHeaders (wasmSource (updateWasmUrl newUrl now1 now2 e))
         = requestHeaders (wasmSource e)
      /\ (forall w req headers,
          requestHeaders (wasmSource e) = Returned headers ->
          exists thrown rest,
            (invocation w (runInference req) (updateWasmUrl newUrl now1 now2 e)).1.2
            = Called (Fetch newUrl headers) thrown :: rest)
      /\ wasmSource (updateWasmUrl newUrl now1 now2 e)
         = {| source_id := js (pretty now1);
              source_name := source_name (wasmSource e);
              url := newUrl;
              authType := authType (wasmSource e);
              authToken := authToken (wasmSource e);
              authHeader := authHeader (wasmSource e);
              authUsername := authUsername (wasmSource e);
              authPassword := authPassword (wasmSource e);
              isLocal := isLocal (wasmSource e);
              createdAt := now2;
              lastUpdated := lastUpdated (wasmSource e) |}
      /\ outputBuffer (updateWasmUrl newUrl now1 now2 e) = outputBuffer e
      /\ maxConcurrentInstances (updateWasmUrl newUrl now1 now2 e)
         = maxConcurrentInstances e).
Proof.
  unfold updateWasmUrl. split.
  - intros Hu. rewrite bool_decide_eq_false_2 by (intros Hn; contradiction). reflexivity.
  - intros Hu. rewrite bool_decide_eq_true_2 by exact Hu.
    assert (Hh : requestHeaders (with_url newUrl (js (pretty now1)) now2 (wasmSource e))
                 = requestHeaders (wasmSource e)).
    { unfold requestHeaders. apply addAuthHeaders_auth_only; reflexivity. }
    repeat apply conj; try reflexivity.
    intros w req headers Hr.
    apply (uninitialized_fetches w req
               (set_isInitialized false
                  (clearActiveInstances
                     (set_wasmModule None
                        (set_wasmSource
                           (with_url newUrl (js (pretty now1)) now2 (wasmSource e)) e))))
               headers); [reflexivity |].
    cbn. rewrite Hh. exact Hr.
Qed.

(** A loaded engine with a bearer token, given its own URL and then the
    URL of a mirror, with the clock at 1700000000000 and, a millisecond
    later, at 1700000000001. *)
Lemma updateWasmUrl_witness :
  let moved :=
    updateWasmUrl (js "https://mirror.example/zoo.wasm") 1700000000000 1700000000001
      token_engine in
  updateWasmUrl (js "https://example.org/zoo.wasm") 1700000000000 1700000000001 token_engine
  = token_engine
  /\ wasmModule moved = None
  /\ isInitialized moved = false
  /\ requestHeaders (wasmSource moved) = requestHeaders token_source
  /\ source_id (wasmSource moved) = js "1700000000000"
  /\ createdAt (wasmSource moved) = 1700000000001%Z
  /\ authType (wasmSource moved) = Some AuthBearer
  /\ authToken (wasmSource moved) = Some (js "t0k3n").
Proof.
  intros moved. split.
  - apply (proj1 (updateWasmUrl_keeps_credentials _ _ _ token_engine)). reflexivity.
  - assert (Hd : url (wasmSource token_engine) <> js "https://mirror.example/zoo.wasm")
      by (vm_compute; discriminate).
    destruct (proj2 (updateWasmUrl_keeps_credentials
                       (js "https://mirror.example/zoo.wasm") 1700000000000 1700000000001
                       token_engine) Hd) as (_ & Hm & Hi & _ & Hh & _ & Hs & _).
    repeat apply conj; try assumption; unfold moved; rewrite Hs; vm_compute; reflexivity.
Defined.

(** X2.  [destroy] keeps the source and forgets the rest: no module,
    not initialized, no active instance, an empty buffer.  A second
    [destroy] changes nothing more, and the next run fetches the module
    again from the same URL with the same headers. *)
Theorem destroy_forces_reload (e : Engine) :
  wasmSource (destroy e) = wasmSource e
  /\ wasmModule (destroy e) = None
  /\ isInitialized (destroy e) = false
  /\ activeInstances (destroy e) = ∅
  /\ outputBuffer (destroy e) = []
  /\ destroy (destroy e) = destroy e
  /\ forall w req headers,
      requestHeaders (wasmSource e) = Returned headers ->
      exists thrown rest,
        (invocation w (runInference req) (destroy e)).1.2
        = Called (Fetch (url (wasmSource e)) headers) thrown :: rest.
Proof.
  repeat apply conj; try reflexivity.
  intros w req headers Hh.
  apply (uninitialized_fetches w req (destroy e) headers); [reflexivity | exact Hh].
Qed.

(** The first step of a run on a destroyed engine. *)
Lemma destroy_witness :
  exists thrown rest,
    (invocation (quiet_world offline) (runInference (sample_inference None))
       (destroy token_engine)).1.2
    = Called (Fetch (js "https://example.org/zoo.wasm")
                (<[js "Authorization" := js "Bearer t0k3n"]> base_headers)) thrown :: rest.
Proof.
  apply (proj2 (proj2 (proj2 (proj2 (proj2 (proj2 (destroy_forces_reload token_engine))))))
           (quiet_world offline) (sample_inference None)).
  vm_compute. reflexivity.
Defined.



(** X4.  When the response to the fetch is not ok, [initialize] returns
    false after that one call: the body is not read, nothing is compiled
    or stored, and the engine is as the suspension left it. *)
Theorem initialize_rejects_bad_status w e e' tr out headers response :
  invocation w initialize e = (e', tr, out) ->
  isInitialized e = false ->
  requestHeaders (wasmSource e) = Returned headers ->
  answer w 0%nat (Fetch (url (wasmSource e)) headers) = Returned response ->
  ok response = false ->
  out = Returned false
  /\ tr = [Called (Fetch (url (wasmSource e)) headers) None]
  /\ e' = interfere w 0%nat e.
Proof.
  intros H Hi Hh Ha Hok. start_in H.
  next_in H Hi. next_in H Hh. next_in H Ha. next_in H Hok.
  injection H as <- <- <-. auto.
Qed.

(** A fresh engine whose module is not found. *)
Lemma initialize_rejects_witness :
  let r := invocation (quiet_world not_found) initialize fresh_engine in
  r.2 = Returned false
  /\ r.1.2 = [Called (Fetch (js "https://files.typ.how/zoo.wasm") base_headers) None]
  /\ r.1.1 = fresh_engine.
Proof.
  intros r.
  apply (initialize_rejects_bad_status (quiet_world not_found) fresh_engine r.1.1 r.1.2 r.2
           base_headers not_found_response (invocation_eta _ _ _));
    reflexivity.
Defined.

(** X5.  Basic authentication with a user name and a password of which
    one has a character outside Latin-1: the encoding of the credentials
    throws inside the [try] of [initialize], which returns false without
    any request, and a run on such an engine throws the exception of an
    unavailable module, again without any request. *)
Theorem unencodable_credentials_block_loading w e user pass req :
  isInitialized e = false ->
  authType (wasmSource e) = Some AuthBasic ->
  authUsername (wasmSource e) = Some user -> authPassword (wasmSource e) = Some pass ->
  user <> [] -> pass <> [] -> is_latin1 (user ++ js ":" ++ pass) = false ->
  invocation w initialize e = (e, [], Returned false)
  /\ invocation w (runInference req) e
     = (interfere w 0%nat e, [Called Tick None], Threw unavailable).
Proof.
  intros Hi Ha Hu Hp Hun Hpn Hl.
  assert (Hh : requestHeaders (wasmSource e) = Threw (ErrorObj (js "InvalidCharacterError"))).
  { unfold requestHeaders, addAuthHeaders. rewrite Ha, Hu, Hp.
    rewrite (nonempty_ne _ Hun), (nonempty_ne _ Hpn). unfold btoa. rewrite Hl. reflexivity. }
  split.
  - destruct (invocation w initialize e) as [[e' tr] out] eqn:H.
    start_in H. next_in H Hi. next_in H Hh. injection H as <- <- <-. reflexivity.
  - destruct (invocation w (runInference req) e) as [[e' tr] out] eqn:H.
    start_in H. next_in H Hi. next_in H Hh. injection H as <- <- <-. reflexivity.
Qed.

(** A password with a euro sign, while the server is reachable. *)
Lemma unencodable_credentials_witness :
  invocation (quiet_world online) (runInference (sample_inference None)) euro_engine
  = (euro_engine, [Called Tick None], Threw unavailable).
Proof.
  apply (proj2 (unencodable_credentials_block_loading (quiet_world online) euro_engine
                  (js "user") [8364] (sample_inference None)
                  eq_refl eq_refl eq_refl eq_refl
                  ltac:(discriminate) ltac:(discriminate) eq_refl)).
Defined.

(** X6.  A run that starts on an initialized engine never loads: in any
    world, its calls are among the wait for a slot, the instantiation,
    the resumption of the caller and the start of the sandbox; it makes
    no fetch, reads no body, compiles nothing and writes nothing to the
    storage. *)
Theorem initialized_engine_never_loads w e :
  isInitialized e = true ->
  (forall req, forallb runs_instance (calls_of (invocation w (runInference req) e).1.2) = true)
  /\ (forall req, forallb runs_instance (calls_of (invocation w (runSubtyping req) e).1.2) = true)
  /\ forallb runs_instance (calls_of (invocation w getMetadata e).1.2) = true.
Proof.
  intros Hi. repeat apply conj.
  - intros req. destruct (invocation w (runInference req) e) as [[e' tr] out] eqn:H.
    start_in H; next_in H Hi; cases_in H; injection H as <- <- <-; reflexivity.
  - intros req. destruct (invocation w (runSubtyping req) e) as [[e' tr] out] eqn:H.
    start_in H; next_in H Hi; cases_in H; injection H as <- <- <-; reflexivity.
  - destruct (invocation w getMetadata e) as [[e' tr] out] eqn:H.
    start_in H; next_in H Hi; cases_in H; injection H as <- <- <-; reflexivity.
Qed.

(** The calls of an inference on a loaded engine. *)
Lemma initialized_engine_witness :
  calls_of (invocation (quiet_world online) (runInference (sample_inference None))
              loaded_engine).1.2
  = [Instantiate (Some 1%nat) (inferenceArgs (sample_inference None)); Tick; Start 7%nat]
  /\ forallb runs_instance
       (calls_of (invocation (quiet_world online) (runInference (sample_inference None))
                    loaded_engine).1.2) = true.
Proof.
  split; [vm_compute; reflexivity |].
  apply (proj1 (initialized_engine_never_loads (quiet_world online) loaded_engine eq_refl)).
Defined.

(** X7.  When the module is fetched and its body read, with nothing
    else touching the engine: a non-empty Last-Modified header is stored
    in the source and the source is written to the storage before the
    compilation, and the stamp stays in the source also when the
    compilation fails; without the header, or with an empty one, the
    source is unchanged and the storage is not written.  The result is
    true exactly when the compilation succeeds. *)
Theorem last_modified_is_recorded (o : Oracle) e e' tr out headers response bytes :
  invocation (quiet_world o) initialize e = (e', tr, out) ->
  isInitialized e = false ->
  requestHeaders (wasmSource e) = Returned headers ->
  o (Fetch (url (wasmSource e)) headers) = Returned response ->
  ok response = true ->
  o ArrayBuffer = Returned bytes ->
  match lastModified response with
  | Some (c :: stamp) =>
      wasmSource e' = set_lastUpdated (Some (c :: stamp)) (wasmSource e)
      /\ calls_of tr = [Fetch (url (wasmSource e)) headers; ArrayBuffer;
                        StoreSource (wasmSource e'); Compile bytes]
  | _ =>
      wasmSource e' = wasmSource e
      /\ calls_of tr = [Fetch (url (wasmSource e)) headers; ArrayBuffer; Compile bytes]
  end
  /\ out = Returned (match o (Compile bytes) with Returned _ => true | Threw _ => false end).
Proof.
  intros H Hi Hh Hf Hok Hb. start_in H.
  next_in H Hi. next_in H Hh. next_in H Hf. next_in H Hok. next_in H Hb.
  destruct (lastModified response) as [[|c stamp]|]; cbn in H;
    destruct (o (Compile bytes)); cbn in H; injection H as <- <- <-; auto.
Qed.

(** A fresh engine loads a module served with a stamp. *)
Lemma last_modified_witness :
  let r := invocation (quiet_world online) initialize fresh_engine in
  lastUpdated (wasmSource r.1.1) = Some (js "Tue, 14 Nov 2023 22:13:20 GMT")
  /\ r.2 = Returned true.
Proof.
  intros r.
  pose proof (last_modified_is_recorded online fresh_engine r.1.1 r.1.2 r.2 base_headers
                stamped_response [] (invocation_eta _ _ _)
                eq_refl eq_refl eq_refl eq_refl eq_refl) as [Hs Ho].
  split; [| exact Ho].
  hnf in Hs. destruct Hs as [Hs _]. rewrite Hs. reflexivity.
Defined.

(** X8.  A source switched while the fetch of [initialize] is pending
    is not loaded: the engine ends up initialized, with the new source
    and its credentials but with the module compiled from the bytes of
    the old URL, the only URL that was fetched; and being initialized,
    its later runs never fetch the new URL. *)
Theorem switch_during_load_is_lost (o : Oracle) e newSource headers response bytes compiled :
  isInitialized e = false ->
  requestHeaders (wasmSource e) = Returned headers ->
  o (Fetch (url (wasmSource e)) headers) = Returned response ->
  ok response = true ->
  o ArrayBuffer = Returned bytes ->
  o (Compile bytes) = Returned compiled ->
  source_differs (wasmSource e) newSource = true ->
  exists e' tr,
    invocation (switch_during_fetch newSource o) initialize e = (e', tr, Returned true)
    /\ isInitialized e' = true
    /\ wasmModule e' = Some compiled
    /\ url (wasmSource e') = url newSource
    /\ requestHeaders (wasmSource e') = requestHeaders newSource
    /\ filter (fun c => loads_module c = true) (calls_of tr)
       = [Fetch (url (wasmSource e)) headers; ArrayBuffer; Compile bytes]
    /\ forall w req,
         forallb runs_instance (calls_of (invocation w (runInference req) e').1.2) = true.
Proof.
  intros Hi Hh Hf Hok Hb Hc Hd.
  destruct (invocation (switch_during_fetch newSource o) initialize e) as [[e' tr] out] eqn:H.
  exists e', tr. start_in H.
  next_in H Hi. next_in H Hh. next_in H Hf. next_in H Hok. next_in H Hb.
  unfold updateWasmSource in H. rewrite Hd in H.
  assert (Hrun : forall e1, isInitialized e1 = true -> forall w req,
             forallb runs_instance (calls_of (invocation w (runInference req) e1).1.2) = true).
  { intros e1 H1 w req.
    destruct (invocation w (runInference req) e1) as [[e2 tr2] out2] eqn:H2.
    start_in H2; next_in H2 H1; cases_in H2; injection H2 as <- <- <-; reflexivity. }
  destruct (nonempty (lastModified response)) eqn:Hn; cbn in H; next_in H Hc;
    injection H as <- <- <-; repeat apply conj; try reflexivity.
  all: try (apply Hrun; reflexivity).
  all: unfold requestHeaders; apply addAuthHeaders_auth_only; reflexivity.
Qed.

(** A fresh engine is given a source with a token while it fetches the
    default module. *)
Lemma switch_during_load_witness :
  exists e' tr,
    invocation (switch_during_fetch token_source online) initialize fresh_engine
    = (e', tr, Returned true)
    /\ isInitialized e' = true
    /\ wasmModule e' = Some 1%nat
    /\ url (wasmSource e') = js "https://example.org/zoo.wasm"
    /\ filter (fun c => loads_module c = true) (calls_of tr)
       = [Fetch (js "https://files.typ.how/zoo.wasm") base_headers; ArrayBuffer; Compile []].
Proof.
  destruct (switch_during_load_is_lost online fresh_engine token_source base_headers
              stamped_response [] 1%nat eq_refl eq_refl eq_refl eq_refl eq_refl eq_refl eq_refl)
    as (e' & tr & H & Hi & Hm & Hu & _ & Hc & _).
  exists e', tr. repeat apply conj; assumption.
Defined.

Lemma add_delete_subseteq (h : nat) (s : gset nat) :
  pool_apply (PoolDelete h) (pool_apply (PoolAdd h) s) ⊆ s.
Proof.
  unfold pool_apply. intros x [Hx Hn]%elem_of_difference.
  apply elem_of_union in Hx as [Hx | Hx]; [contradiction | exact Hx].
Qed.

(** X9.  A run on an initialized engine, with nothing else touching the
    engine, changes the output buffer only: the module, the source, the
    flag and the cap are kept, and no instance is active afterwards that
    was not active before. *)
Theorem run_keeps_the_configuration (o : Oracle) e :
  isInitialized e = true ->
  (forall req,
     configuration_kept e (invocation (quiet_world o) (runInference req) e).1.1)
  /\ (forall req,
        configuration_kept e (invocation (quiet_world o) (runSubtyping req) e).1.1)
  /\ configuration_kept e (invocation (quiet_world o) getMetadata e).1.1.
Proof.
  intros Hi. unfold configuration_kept. split; [| split].
  - intros req. destruct (invocation (quiet_world o) (runInference req) e) as [[e' tr] out] eqn:H.
    start_in H; next_in H Hi; cases_in H; injection H as <- <- <-; cbn;
      repeat apply conj; first [reflexivity | congruence | apply add_delete_subseteq].
  - intros req. destruct (invocation (quiet_world o) (runSubtyping req) e) as [[e' tr] out] eqn:H.
    start_in H; next_in H Hi; cases_in H; injection H as <- <- <-; cbn;
      repeat apply conj; first [reflexivity | congruence | apply add_delete_subseteq].
  - destruct (invocation (quiet_world o) getMetadata e) as [[e' tr] out] eqn:H.
    start_in H; next_in H Hi; cases_in H; injection H as <- <- <-; cbn;
      repeat apply conj; first [reflexivity | congruence | apply add_delete_subseteq].
Qed.

(** An inference on a loaded engine with a token. *)
Lemma run_keeps_witness :
  configuration_kept token_engine
    (invocation (quiet_world online) (runInference (sample_inference None)) token_engine).1.1.
Proof.
  apply (proj1 (run_keeps_the_configuration online token_engine eq_refl)).
Defined.

(** X10.  With nothing else touching the engine, a run whose sandbox
    ends without a trap leaves in the buffer the lines of that sandbox,
    each followed by a newline, and nothing of what the buffer held
    before; its result is the decoding of that text. *)
Theorem output_is_this_runs (o : Oracle) e e' tr h :
  sandbox_run tr = Some (h, None) ->
  (forall req out,
     invocation (quiet_world o) (runInference req) e = (e', tr, out) ->
     outputBuffer e' = lines_text (o (Start h)).1
     /\ out = Returned (decodeResult (lines_text (o (Start h)).1)))
  /\ (forall req out,
        invocation (quiet_world o) (runSubtyping req) e = (e', tr, out) ->
        outputBuffer e' = lines_text (o (Start h)).1
        /\ out = Returned (decodeResult (lines_text (o (Start h)).1)))
  /\ (forall out,
        invocation (quiet_world o) getMetadata e = (e', tr, out) ->
        outputBuffer e' = lines_text (o (Start h)).1
        /\ out = decodeMetadata (lines_text (o (Start h)).1)).
Proof.
  intros Hs. repeat apply conj; [intros req out H | intros req out H | intros out H].
  all: run_in H; injection H as <- <- <-; cbn in Hs; try discriminate Hs.
  all: injection Hs as <-; cbn; unfold lines_text; split;
    first [reflexivity | symmetry; eassumption].
Qed.

(** An inference on a loaded engine whose buffer holds an old output. *)
Lemma output_is_this_runs_witness :
  let r := invocation (quiet_world online) (runInference (sample_inference None))
             (set_outputBuffer (js "stale") loaded_engine) in
  outputBuffer r.1.1 = js "Int" ++ [10]
  /\ r.2 = Returned (text_result (js "Int")).
Proof.
  intros r.
  destruct (proj1 (output_is_this_runs online (set_outputBuffer (js "stale") loaded_engine)
                     r.1.1 r.1.2 7%nat ltac:(vm_compute; reflexivity))
              (sample_inference None) r.2 (invocation_eta _ _ _)) as [Hb Ho].
  split; [rewrite Hb | rewrite Ho]; vm_compute; reflexivity.
Defined.

Lemma foldl_lines (buf : jsstring) (lines : list jsstring) :
  foldl (fun buf msg => buf ++ msg ++ [10]) buf lines = buf ++ lines_text lines.
Proof.
  unfold lines_text. revert buf.
  induction lines as [|l lines IH]; intros buf.
  - symmetry. apply app_nil_r.
  - change (foldl (fun buf msg => buf ++ msg ++ [10]) (buf ++ l ++ [10]) lines
            = buf ++ foldl (fun buf msg => buf ++ msg ++ [10]) ([] ++ l ++ [10]) lines).
    rewrite (IH (buf ++ l ++ [10])), (IH ([] ++ l ++ [10])).
    rewrite app_nil_l, <- !app_assoc. reflexivity.
Qed.

Lemma pool_events_cons s ev evs : pool_events s (ev :: evs) = pool_events (pool_event s ev) evs.
Proof. reflexivity. Qed.

(** X11.  Two inference requests made in one turn on a loaded engine
    with a free slot share the output buffer: each empties it before it
    is suspended, so when the first sandbox has run and then the second,
    the second request decodes the lines of both.  This holds whether the
    first request finishes before the second instantiation completes or
    after it. *)
Theorem overlapping_runs_share_the_buffer e m r1 r2 i j la lb schedule :
  isInitialized e = true ->
  wasmModule e = Some m ->
  (size (activeInstances e) < maxConcurrentInstances e)%nat ->
  schedule = [Resume 0 (instance_prints i la); Resume 0 (instance_prints i la);
              Resume 1 (instance_prints j lb); Resume 1 (instance_prints j lb)]
  \/ schedule = [Resume 0 (instance_prints i la); Resume 1 (instance_prints j lb);
                 Resume 0 (instance_prints i la); Resume 1 (instance_prints j lb)] ->
  tasks (pool_events {| engine := e; tasks := [] |} (two_at_once r1 r2 schedule))
  = [Ret (decodeResult (lines_text la));
     Ret (decodeResult (lines_text la ++ lines_text lb))].
Proof.
  intros Hi Hm Hsize Hsched.
  assert (Hcap : bool_decide (maxConcurrentInstances e ≤ size (activeInstances e))%nat = false)
    by (apply bool_decide_eq_false_2; lia).
  destruct e as [m' s' i' b' a' mx']. cbn in Hi, Hm, Hcap. subst i' m'.
  unfold two_at_once.
  destruct Hsched as [-> | ->].
  all: rewrite !pool_events_cons.
  all: unfold pool_event at 6; unfold runInference, ensureInitialized, invoke, createInstance,
         await_method, try_finally, wasiStart, cleanupInstance, await, call, lift, modify,
         pool, get, mbind, mret, Prog_bind, Prog_ret; cbn.
  all: rewrite ?Hcap; cbn.
  all: rewrite ?Hcap; cbn.
  all: rewrite !foldl_lines, ?app_nil_l; reflexivity.
Qed.

(** Two requests whose sandboxes print one JSON text each: the second
    gets both lines, which do not parse, as a text. *)
Lemma overlapping_runs_witness :
  tasks (pool_events pool_start
           (two_at_once (sample_inference None) (sample_inference (Some (js "v2")))
              [Resume 0 (instance_prints 10 [jsq "{'type':'Int'}"]);
               Resume 0 (instance_prints 10 [jsq "{'type':'Int'}"]);
               Resume 1 (instance_prints 11 [jsq "{'type':'Bool'}"]);
               Resume 1 (instance_prints 11 [jsq "{'type':'Bool'}"])]))
  = [Ret {| success := true; result := Some (JObj [(js "type", JStr (js "Int"))]);
            error := None; steps := Some (JArr []) |};
     Ret (text_result (jsq "{'type':'Int'}" ++ [10] ++ jsq "{'type':'Bool'}"))].
Proof.
  eapply eq_trans.
  - apply (overlapping_runs_share_the_buffer loaded_engine 1%nat
             (sample_inference None) (sample_inference (Some (js "v2")))
             10%nat 11%nat [jsq "{'type':'Int'}"] [jsq "{'type':'Bool'}"]);
      [reflexivity | reflexivity | vm_compute; lia | left; reflexivity].
  - vm_compute. reflexivity.
Defined.

(** * Sequential use *)

Lemma add_delete_empty (h : nat) :
  pool_apply (PoolDelete h) (pool_apply (PoolAdd h) ∅) = (∅ : gset nat).
Proof.
  apply leibniz_equiv, elem_of_equiv_empty. intros x Hx.
  apply add_delete_subseteq in Hx. exact (not_elem_of_empty x Hx).
Qed.

Ltac rest_after H Hm Ha Hc :=
  injection H as <- <- <-; cbn; rewrite ?Ha;
  repeat apply conj;
  first [ exact Hm | exact Ha | exact Hc | reflexivity | discriminate
        | apply add_delete_empty
        | intros _; discriminate
        | intros Hi; apply Hm; congruence
        | congruence
        | exfalso; apply Hm; reflexivity ].

Lemma perform_at_rest e op : at_rest e -> at_rest (perform e op).
Proof.
  intros (Hm & Ha & Hc). unfold at_rest.
  destruct op as [newUrl now1 now2 | newSource | | | o | req o | req o | o]; cbn [perform].
  - unfold updateWasmUrl. destruct (bool_decide _); cbn; auto.
  - unfold updateWasmSource. destruct (source_differs _ _); cbn; auto.
  - cbn. auto.
  - cbn. auto.
  - destruct (invocation (quiet_world o) initialize e) as [[e' tr] out] eqn:H.
    run_in H; rest_after H Hm Ha Hc.
  - destruct (invocation (quiet_world o) (runInference req) e) as [[e' tr] out] eqn:H.
    run_in H; rest_after H Hm Ha Hc.
  - destruct (invocation (quiet_world o) (runSubtyping req) e) as [[e' tr] out] eqn:H.
    run_in H; rest_after H Hm Ha Hc.
  - destruct (invocation (quiet_world o) getMetadata e) as [[e' tr] out] eqn:H.
    run_in H; rest_after H Hm Ha Hc.
Qed.

Lemma at_rest_after_calls wasmUrl now ops : at_rest (after_calls wasmUrl now ops).
Proof.
  unfold after_calls.
  assert (H0 : at_rest (new_engine wasmUrl now)).
  { repeat split. discriminate. }
  revert H0. generalize (new_engine wasmUrl now).
  induction ops as [|op ops IH]; intros e He; [exact He |].
  apply (IH (perform e op)). apply perform_at_rest. exact He.
Qed.

Lemma cap_not_reached e :
  at_rest e -> bool_decide (maxConcurrentInstances e ≤ size (activeInstances e))%nat = false.
Proof.
  intros (_ & Ha & Hc). rewrite Ha, Hc, size_empty. reflexivity.
Qed.

(** X12.  An engine used sequentially, each public method called when
    the previous call has settled and nothing else touching the engine
    meanwhile, is at rest after any number of calls of any of them: if
    it is initialized it has its module, no instance is active, and the
    cap is 2.  A run on it never waits for a slot, reaches the
    instantiation unless it throws the exception of an unavailable
    module, and leaves the engine at rest. *)
Theorem sequential_use_is_sound wasmUrl now ops (o : Oracle) :
  at_rest (after_calls wasmUrl now ops)
  /\ (forall req,
        sound_run (invocation (quiet_world o) (runInference req) (after_calls wasmUrl now ops)))
  /\ (forall req,
        sound_run (invocation (quiet_world o) (runSubtyping req) (after_calls wasmUrl now ops)))
  /\ sound_run (invocation (quiet_world o) getMetadata (after_calls wasmUrl now ops)).
Proof.
  pose proof (at_rest_after_calls wasmUrl now ops) as Hrest.
  generalize dependent (after_calls wasmUrl now ops). intros e Hrest.
  pose proof (cap_not_reached e Hrest) as Hcap.
  unfold sound_run.
  split; [exact Hrest |]. split; [| split].
  - intros req. split; [| split]; [| | exact (perform_at_rest e (DoRunInference req o) Hrest)].
    all: destruct Hrest as (Hm & _).
    all: destruct (invocation (quiet_world o) (runInference req) e) as [[e' tr] out] eqn:H.
    all: run_in H; injection H as <- <- <-; cbn; try reflexivity; try discriminate.
    all: try (exfalso; apply Hm; reflexivity).
  - intros req. split; [| split]; [| | exact (perform_at_rest e (DoRunSubtyping req o) Hrest)].
    all: destruct Hrest as (Hm & _).
    all: destruct (invocation (quiet_world o) (runSubtyping req) e) as [[e' tr] out] eqn:H.
    all: run_in H; injection H as <- <- <-; cbn; try reflexivity; try discriminate.
    all: try (exfalso; apply Hm; reflexivity).
  - split; [| split]; [| | exact (perform_at_rest e (DoGetMetadata o) Hrest)].
    all: destruct Hrest as (Hm & _).
    all: destruct (invocation (quiet_world o) getMetadata e) as [[e' tr] out] eqn:H.
    all: run_in H; injection H as <- <- <-; cbn; try reflexivity; try discriminate.
    all: try (exfalso; apply Hm; reflexivity).
Qed.

(** Eight calls, among them a change of source, a failed load and a
    [destroy], and then an inference. *)
Lemma sequential_use_witness :
  let e := after_calls (js "https://files.typ.how/zoo.wasm") 0 sample_calls in
  activeInstances e = ∅
  /\ isInitialized e = true
  /\ at_rest (invocation (quiet_world online) (runInference (sample_inference None)) e).1.1.
Proof.
  intros e.
  destruct (sequential_use_is_sound (js "https://files.typ.how/zoo.wasm") 0 sample_calls online)
    as ((_ & Ha & _) & Hrun & _).
  split; [exact Ha | split; [vm_compute; reflexivity |]].
  exact (proj2 (proj2 (Hrun (sample_inference None)))).
Defined.

(** * The hook and the engine *)

(** X13.  [loadWasmWithAuth] of the hook and [initialize] of an
    uninitialized engine, given the same source and the same answers:
    the hook always ends with the loading flag off.  When it throws, its
    error is the message of the thrown value, the engine returns false
    after the same calls, and the engine's source is unchanged.  When it
    returns, its error is cleared, the engine made the same calls and
    then compiled the very bytes the hook returns, the engine's result
    tells whether that compilation succeeded, and the stamp the hook
    returns is the one the engine stored in its source. *)
Theorem hook_and_engine_load_alike (o : Oracle) e s e' tr out :
  isInitialized e = false ->
  invocation (quiet_world o) initialize e = (e', tr, out) ->
  let loaded := WasmLoader.loadWasmWithAuth o (wasmSource e) s in
  WasmLoader.isLoading loaded.1.1 = false
  /\ match loaded.2 with
     | Threw x =>
         WasmLoader.error loaded.1.1 = Some (WasmLoader.errorMessage x)
         /\ out = Returned false
         /\ filter (fun c => loads_module c = true) (calls_of tr) = loaded.1.2
         /\ wasmSource e' = wasmSource e
     | Returned r =>
         WasmLoader.error loaded.1.1 = None
         /\ filter (fun c => loads_module c = true) (calls_of tr)
            = loaded.1.2 ++ [Compile (WasmLoader.arrayBuffer r)]
         /\ out = Returned match o (Compile (WasmLoader.arrayBuffer r)) with
                           | Returned _ => true
                           | Threw _ => false
                           end
         /\ lastUpdated (wasmSource e')
            = match WasmLoader.lastModified r with
              | Some stamp => Some stamp
              | None => lastUpdated (wasmSource e)
              end
     end.
Proof.
  intros Hi H.
  unfold WasmLoader.loadWasmWithAuth, WasmLoader.try_block, getLastModified.
  start_in H. next_in H Hi.
  destruct (requestHeaders (wasmSource e)) as [headers|x]; cbn in H |- *.
  2: { injection H as <- <- <-. auto. }
  destruct (o (Fetch (url (wasmSource e)) headers)) as [response|x]; cbn in H |- *.
  2: { injection H as <- <- <-. auto. }
  destruct (ok response); cbn in H |- *.
  2: { injection H as <- <- <-. auto. }
  destruct (o ArrayBuffer) as [bytes|x]; cbn in H |- *.
  2: { injection H as <- <- <-. auto. }
  destruct (nonempty (lastModified response)); cbn in H |- *;
    destruct (o (Compile bytes)); cbn in H; injection H as <- <- <-; auto.
Qed.

(** The hook after an earlier failure, and a fresh engine, when the
    module is not found. *)
Lemma hook_and_engine_witness :
  let failed := {| WasmLoader.isLoading := false; WasmLoader.error := Some (js "timeout") |} in
  let loaded := WasmLoader.loadWasmWithAuth not_found (wasmSource fresh_engine) failed in
  WasmLoader.isLoading loaded.1.1 = false
  /\ WasmLoader.error loaded.1.1 = Some (js "Failed to load WASM: 404 Not Found")
  /\ (invocation (quiet_world not_found) initialize fresh_engine).2 = Returned false.
Proof.
  intros failed loaded.
  pose proof (hook_and_engine_load_alike not_found fresh_engine failed _ _ _ eq_refl
                (invocation_eta _ _ _)) as [Hl Hm].
  split; [exact Hl |].
  vm_compute in Hm. destruct Hm as (He & Ho & _).
  split; [vm_compute; exact He | vm_compute; exact Ho].
Defined.

(** * More on the request headers *)

Lemma split_go_first (cur key rest : jsstring) :
  contains [58; 32] key = false ->
  split_go [58; 32] 0 cur (key ++ 58 :: 32 :: rest)
  = (rev cur ++ key) :: split_go [58; 32] 0 [] rest.
Proof.
  revert cur. induction key as [|c k IH]; intros cur Hk.
  - simpl. rewrite app_nil_r. reflexivity.
  - cbn [contains] in Hk. apply orb_false_iff in Hk as [Hs Hk].
    change ((c :: k) ++ 58 :: 32 :: rest) with (c :: (k ++ 58 :: 32 :: rest)).
    cbn [split_go].
    pose proof (starts_with_colon_space_app (c :: k) rest ltac:(discriminate) Hs) as Hs'.
    change ((c :: k) ++ 58 :: 32 :: rest) with (c :: (k ++ 58 :: 32 :: rest)) in Hs'.
    rewrite Hs'. rewrite (IH (c :: cur) Hk).
    simpl. rewrite <- app_assoc. reflexivity.
Qed.

(** X14.  A stored custom header made of a non-empty key, a colon-space,
    a non-empty value, and then a further colon-space and anything,
    where neither the key nor the value holds a colon-space and the
    trimmed key is not [__proto__]: the header of the trimmed key is set
    to the trimmed value up to that second colon-space, and what follows
    it is not sent.  (An assignment to [__proto__] sets no header.) *)
Theorem header_value_is_cut (source : WasmSource) (headers : Headers) key value rest :
  authType source = Some AuthHeader ->
  authHeader source = Some (key ++ js ": " ++ value ++ js ": " ++ rest) ->
  key <> [] -> value <> [] ->
  contains (js ": ") key = false -> contains (js ": ") value = false ->
  trim key <> js "__proto__" ->
  addAuthHeaders source headers = Returned (<[trim key := trim value]> headers).
Proof.
  intros Ha Hs Hk Hv Hck Hcv Hproto. unfold addAuthHeaders. rewrite Ha, Hs.
  assert (Hne : key ++ js ": " ++ value ++ js ": " ++ rest <> [])
    by (destruct key; [congruence | discriminate]).
  rewrite (nonempty_ne _ Hne). unfold js_split.
  change (js ": ") with [58; 32] in *.
  change (key ++ [58; 32] ++ value ++ [58; 32] ++ rest)
    with (key ++ 58 :: 32 :: (value ++ 58 :: 32 :: rest)).
  rewrite (split_go_first [] key _ Hck), (split_go_first [] value rest Hcv).
  cbn [rev app take lookup list_lookup].
  rewrite (nonempty_ne _ Hk), (nonempty_ne _ Hv).
  unfold set_header, str_eqb. rewrite bool_decide_eq_false_2 by exact Hproto.
  reflexivity.
Qed.

(** A trace header whose value is a list of hops. *)
Lemma header_value_witness :
  addAuthHeaders
    (sample_source (Some AuthHeader) None (Some (js "X-Trace: edge: cache: origin")) None None)
    ∅
  = Returned {[ js "X-Trace" := js "edge" ]}.
Proof.
  apply (header_value_is_cut _ ∅ (js "X-Trace") (js "edge") (js "cache: origin"));
    [reflexivity | reflexivity | discriminate | discriminate | reflexivity | reflexivity
     | vm_compute; discriminate].
Defined.

Lemma set_header_accept key value :
  let h := set_header key value base_headers in
  is_Some (h !! js "Accept") /\ (size h <= 2)%nat
  /\ (key <> js "Accept" -> h !! js "Accept" = Some (js "application/wasm")).
Proof.
  unfold set_header, base_headers. cbn zeta.
  destruct (str_eqb key (js "__proto__")).
  - rewrite lookup_singleton_eq, map_size_singleton. eauto.
  - destruct (decide (key = js "Accept")) as [-> | Hne].
    + rewrite lookup_insert_eq, insert_singleton_eq, map_size_singleton.
      repeat apply conj; [eauto | lia | congruence].
    + assert (Hne' : js "Accept" <> key) by congruence.
      rewrite lookup_insert_ne, lookup_singleton_eq by exact Hne.
      rewrite map_size_insert, lookup_singleton_ne by exact Hne'.
      rewrite map_size_singleton. eauto.
Qed.

(** X15.  Whatever the source, the headers of the request, when they
    can be built, have an Accept header and at most one header besides;
    Accept is application/wasm unless the source has a custom header,
    which may itself be named Accept; and without a scheme, or with
    none or presigned, Accept is the only header. *)
Theorem accept_header_is_sent (source : WasmSource) (headers : Headers) :
  requestHeaders source = Returned headers ->
  is_Some (headers !! js "Accept")
  /\ (size headers <= 2)%nat
  /\ (authType source <> Some AuthHeader ->
      headers !! js "Accept" = Some (js "application/wasm"))
  /\ (authType source = None \/ authType source = Some AuthNone
      \/ authType source = Some AuthPresigned -> headers = base_headers).
Proof.
  unfold requestHeaders, addAuthHeaders.
  assert (Hb : is_Some (base_headers !! js "Accept") /\ (size base_headers <= 2)%nat
               /\ base_headers !! js "Accept" = Some (js "application/wasm")).
  { unfold base_headers. rewrite lookup_singleton_eq, map_size_singleton. eauto. }
  destruct Hb as (Hb1 & Hb2 & Hb3).
  intros H.
  repeat match type of H with
         | context [match ?x with _ => _ end] => destruct x eqn:?
         end;
    try discriminate H; injection H as <-.
  all: try (repeat apply conj; [exact Hb1 | exact Hb2 | intros _; exact Hb3
                                | first [reflexivity | intros [|[|]]; congruence]]).
  all: match goal with
       | |- context [set_header ?k ?v base_headers] =>
           destruct (set_header_accept k v) as (H1 & H2 & H3)
       end.
  all: repeat apply conj; [exact H1 | exact H2 | | intros [|[|]]; congruence].
  all: intros Hne; try (apply H3; discriminate); congruence.
Qed.

(** The headers of a source with a bearer token. *)
Lemma accept_header_witness :
  let headers := <[js "Authorization" := js "Bearer t0k3n"]> base_headers in
  headers !! js "Accept" = Some (js "application/wasm") /\ (size headers <= 2)%nat.
Proof.
  intros headers.
  destruct (accept_header_is_sent token_source headers ltac:(vm_compute; reflexivity))
    as (_ & Hs & Ha & _).
  split; [apply Ha; discriminate | exact Hs].
Defined.

(** * More on the grammar cache *)






Lemma onigasm_needs_no_registry s :
  reachable s -> forall p r, promises s !! p = Some (LoadingOnigasm r) -> registry s = false.
Proof.
  induction 1 as [| s ev s' Hreach IH Hstep]; intros p0 r0 Hl; [discriminate |].
  pose proof (reachable_invariant s Hreach) as Hinv.
  assert (Hone : forall p q l l', promises s !! p = Some l -> settled l = false ->
                   promises s !! q = Some l' -> settled l' = false -> p = q).
  { intros p q l l' Hp Hlp Hq Hlq.
    pose proof (inv_promise s Hinv p l Hp (unsettled_not_rejected l Hlp)).
    pose proof (inv_promise s Hinv q l' Hq (unsettled_not_rejected l' Hlq)).
    congruence. }
  assert (Hins : forall p new, (forall r, new <> LoadingOnigasm r) ->
                   <[p := new]> (promises s) !! p0 = Some (LoadingOnigasm r0) ->
                   promises s !! p0 = Some (LoadingOnigasm r0)).
  { intros p new Hnew Hin. destruct (decide (p = p0)) as [-> | Hne].
    - apply list_lookup_insert_Some in Hin as [(_ & Heq & _) | (? & ?)];
        [exfalso; eapply Hnew; first [exact Heq | symmetry; exact Heq] | congruence].
    - rewrite list_lookup_insert_ne in Hin by exact Hne. exact Hin. }
  destruct ev as [b t | p [v|x] | p [x|] | p [x|] | p | i]; simpl in Hstep.
  - injection Hstep as <-. unfold loadTextMateGrammar in Hl |- *.
    destruct b; simpl in *; [| eauto].
    destruct (data s); simpl in *; [eauto |].
    destruct (promise s); simpl in *; [eauto |].
    apply lookup_app_Some in Hl as [Hl | [_ Hl]]; [eauto |].
    apply list_lookup_singleton_Some in Hl as [_ Hl]. destruct t; discriminate.
  - destruct (promises s !! p) as [[]|] eqn:Hp; try discriminate.
    injection Hstep as <-. simpl in *.
    destruct (registry s) eqn:Hr; [| reflexivity].
    apply Hins in Hl; [| discriminate]. rewrite <- Hr. eauto.
  - destruct (promises s !! p) as [[]|] eqn:Hp; try discriminate.
    injection Hstep as <-. simpl in *. apply Hins in Hl; [eauto | discriminate].
  - destruct (promises s !! p) as [[]|] eqn:Hp; try discriminate.
    injection Hstep as <-. simpl in *. apply Hins in Hl; [eauto | discriminate].
  - destruct (promises s !! p) as [[]|] eqn:Hp; try discriminate.
    injection Hstep as <-. simpl in *. exfalso.
    destruct (decide (p = p0)) as [-> | Hne].
    + rewrite list_lookup_insert_eq in Hl by (eapply lookup_lt_Some; exact Hp). discriminate.
    + rewrite list_lookup_insert_ne in Hl by exact Hne.
      apply Hne. eapply Hone; eauto.
  - destruct (promises s !! p) as [[]|] eqn:Hp; try discriminate.
    injection Hstep as <-. simpl in *. apply Hins in Hl; [eauto | discriminate].
  - destruct (promises s !! p) as [[]|] eqn:Hp; try discriminate.
    injection Hstep as <-. simpl in *. apply Hins in Hl; [eauto | discriminate].
  - destruct (promises s !! p) as [[]|] eqn:Hp; try discriminate;
      injection Hstep as <-; simpl in *; (apply Hins in Hl; [eauto | discriminate]).
  - destruct (callers s !! i) as [[q|]|] eqn:Hi; try discriminate.
    destruct (promises s !! q) as [[]|] eqn:Hq; try discriminate;
      injection Hstep as <-; simpl in *; eauto.
Qed.

(** X17.  Along any course of events from a state the cache can reach,
    the number of successful loads of onigasm and the registry add up:
    a load succeeds only while there is no registry and creates it, and
    the registry stays.  So onigasm is loaded at most once, however many
    grammar loads fail and are tried again, and never once the registry
    exists. *)
Theorem onigasm_is_loaded_once (evs : list Event) : forall s s',
  reachable s -> replay s evs = Some s' ->
  (length (filter (fun ev => GrammarEvents.onigasm_loaded ev = true) evs)
   + (if registry s then 1 else 0)
   = if registry s' then 1 else 0)%nat.
Proof.
  induction evs as [|ev evs IH]; intros s s' Hreach Hrun; simpl in Hrun.
  - injection Hrun as <-. reflexivity.
  - destruct (step s ev) as [s1|] eqn:Hstep; [|discriminate].
    rewrite <- (IH s1 s' (reach_step s ev s1 Hreach Hstep) Hrun).
    assert (Hev : ((if GrammarEvents.onigasm_loaded ev then 1 else 0)
                   + (if registry s then 1 else 0)
                   = if registry s1 then 1 else 0)%nat).
    { pose proof (onigasm_needs_no_registry s Hreach) as Hno.
      destruct ev as [b t | p [v|x] | p [x|] | p [x|] | p | i]; simpl in Hstep |- *.
      - injection Hstep as <-. unfold loadTextMateGrammar.
        destruct b; simpl; [destruct (data s); simpl; [|destruct (promise s); simpl] |];
          reflexivity.
      - destruct (promises s !! p) as [[]|]; try discriminate; injection Hstep as <-; reflexivity.
      - destruct (promises s !! p) as [[]|]; try discriminate; injection Hstep as <-; reflexivity.
      - destruct (promises s !! p) as [[]|]; try discriminate; injection Hstep as <-; reflexivity.
      - destruct (promises s !! p) as [[]|] eqn:Hp; try discriminate; injection Hstep as <-.
        simpl. rewrite (Hno p r Hp). reflexivity.
      - destruct (promises s !! p) as [[]|]; try discriminate; injection Hstep as <-; reflexivity.
      - destruct (promises s !! p) as [[]|]; try discriminate; injection Hstep as <-; reflexivity.
      - destruct (promises s !! p) as [[]|]; try discriminate; injection Hstep as <-; reflexivity.
      - destruct (callers s !! i) as [[q|]|]; try discriminate.
        destruct (promises s !! q) as [[]|]; try discriminate; injection Hstep as <-; reflexivity. }
    rewrite filter_cons. destruct (GrammarEvents.onigasm_loaded ev) eqn:Hl.
    + rewrite decide_True by reflexivity. simpl in *. lia.
    + rewrite decide_False by congruence. simpl in *. lia.
Qed.

(** The failed load and the retry: onigasm is loaded once, by the
    retry. *)
Lemma onigasm_witness :
  (length (filter (fun ev => GrammarEvents.onigasm_loaded ev = true)
             GrammarSamples.failed_then_retried) + 0 = 1)%nat.
Proof.
  exact (onigasm_is_loaded_once GrammarSamples.failed_then_retried initial
           GrammarSamples.after_retry reach_initial eq_refl).
Defined.

(** * The stored sources and the dropdown *)

Lemma find_current_spec (parsed : list WasmSource) (currentUrl : option jsstring) first :
  head parsed = Some first ->
  exists cur, find_current parsed currentUrl = Some cur
    /\ In cur parsed
    /\ ((exists s, In s parsed /\ Some (url s) = currentUrl) -> Some (url cur) = currentUrl)
    /\ ((forall s, In s parsed -> Some (url s) <> currentUrl) -> cur = first).
Proof.
  intros Hh. unfold find_current.
  destruct (List.find _ parsed) as [cur|] eqn:Hf.
  - apply find_some in Hf as [Hin Hu]. apply bool_decide_eq_true in Hu.
    exists cur. repeat apply conj; [reflexivity | exact Hin | auto |].
    intros Hno. exfalso. exact (Hno cur Hin Hu).
  - exists first. repeat apply conj; [exact Hh | | | reflexivity].
    + destruct parsed; [discriminate | injection Hh as ->; left; reflexivity].
    + intros (s & Hin & Hu). exfalso.
      pose proof (find_none _ _ Hf s Hin) as Hn. cbn in Hn.
      apply bool_decide_eq_false in Hn. contradiction.
Qed.

(** X18.  The engine the module exports is never initialized and has
    no module.  When the storage holds a non-empty array of sources, the
    engine starts with the URL and the request headers of the stored
    current source, which is the first source with the stored current
    URL, or the first source if none has it; it holds that very
    descriptor unless the descriptor agrees with the default on the URL
    and the authentication fields, in which case the engine keeps its
    default descriptor and its default id.  In every other case the
    engine is the default one. *)
Theorem engine_starts_with_stored_configuration (now : Z) (st : Storage) :
  let eng := initializeWasmSource now st in
  let fresh := new_engine (js "https://files.typ.how/zoo.wasm") now in
  isInitialized eng = false /\ wasmModule eng = None /\ activeInstances eng = ∅
  /\ match wasm_sources st with
     | Parsed (first :: rest) =>
         exists cur,
           find_current (first :: rest) (current_wasm_url st) = Some cur
           /\ url (wasmSource eng) = url cur
           /\ requestHeaders (wasmSource eng) = requestHeaders cur
           /\ (source_differs (wasmSource fresh) cur = true -> wasmSource eng = cur)
           /\ (source_differs (wasmSource fresh) cur = false -> eng = fresh)
           /\ ((exists s, In s (first :: rest) /\ Some (url s) = current_wasm_url st) ->
               Some (url (wasmSource eng)) = current_wasm_url st)
           /\ ((forall s, In s (first :: rest) -> Some (url s) <> current_wasm_url st) ->
               url (wasmSource eng) = url first)
     | _ => eng = fresh
     end.
Proof.
  cbn zeta. unfold initializeWasmSource.
  destruct (wasm_sources st) as [| | [|first rest]];
    try (repeat apply conj; reflexivity).
  destruct (find_current_spec (first :: rest) (current_wasm_url st) first eq_refl)
    as (cur & Hc & Hin & Hfound & Hnone).
  rewrite Hc. unfold updateWasmSource.
  destruct (source_differs _ cur) eqn:Hd.
  - repeat apply conj; try reflexivity.
    exists cur. repeat apply conj; try reflexivity; try congruence; auto.
    intros Hno. rewrite (Hnone Hno). reflexivity.
  - repeat apply conj; try reflexivity.
    pose proof (proj1 (source_differs_false _ _) Hd) as (Hu & Ht & Hk & Hh & Hn & Hp).
    exists cur. repeat apply conj.
    + reflexivity.
    + exact Hu.
    + unfold requestHeaders. apply addAuthHeaders_auth_only; assumption.
    + intros Hex. congruence.
    + reflexivity.
    + intros Hex. exact (eq_trans (f_equal Some Hu) (Hfound Hex)).
    + intros Hno. exact (eq_trans Hu (f_equal url (Hnone Hno))).
Qed.

(** The storage names the mirror as current; and a storage whose only
    source is a renamed copy of the default. *)
Lemma engine_starts_witness :
  let chosen :=
    {| wasm_sources := wasm_sources sample_storage;
       current_wasm_url := Some (js "https://mirror.example/zoo.wasm") |} in
  let renamed :=
    {| wasm_sources := Parsed [with_url (js "https://files.typ.how/zoo.wasm") (js "42") 42
                                 (SourceDropdown.defaultSource 0)];
       current_wasm_url := None |} in
  wasmSource (initializeWasmSource 5 chosen) = mirror_source
  /\ source_id (wasmSource (initializeWasmSource 5 renamed)) = js "default".
Proof.
  intros chosen renamed. split.
  - destruct (engine_starts_with_stored_configuration 5 chosen) as (_ & _ & _ & H).
    cbn [wasm_sources chosen sample_storage] in H.
    destruct H as (cur & Hc & _ & _ & Hd & _).
    assert (Hcur : cur = mirror_source)
      by (vm_compute in Hc; injection Hc as <-; vm_compute; reflexivity).
    subst cur. apply Hd. vm_compute. reflexivity.
  - destruct (engine_starts_with_stored_configuration 5 renamed) as (_ & _ & _ & H).
    cbn [wasm_sources renamed] in H.
    destruct H as (cur & Hc & _ & _ & _ & Hsame & _).
    assert (Hcur : source_differs (wasmSource (new_engine (js "https://files.typ.how/zoo.wasm") 5))
                     cur = false)
      by (vm_compute in Hc; injection Hc as <-; vm_compute; reflexivity).
    rewrite (Hsame Hcur). reflexivity.
Defined.

(** X19.  [updateSourceInStorage] replaces the first stored descriptor
    that has the id of the given one, and that entry only: the ids and
    their order are unchanged and every other entry is as before, also a
    later entry of the same id.  When no stored descriptor has the id,
    or the storage holds no array, nothing is written and no event is
    dispatched.  The current URL is never touched, and doing the update
    again changes nothing. *)
Theorem stored_source_is_replaced_by_id (source : WasmSource) (st : Storage) :
  let st' := (updateSourceInStorage source st).1 in
  let dispatched := (updateSourceInStorage source st).2 in
  current_wasm_url st' = current_wasm_url st
  /\ updateSourceInStorage source st' = (st', dispatched)
  /\ match wasm_sources st with
     | Parsed sources =>
         exists sources',
           wasm_sources st' = Parsed sources'
           /\ source_id <$> sources' = source_id <$> sources
           /\ (dispatched = false <-> forall s, In s sources -> source_id s <> source_id source)
           /\ (dispatched = false -> st' = st)
           /\ (dispatched = true ->
               exists i, sources' !! i = Some source
                 /\ (forall j, j <> i -> sources' !! j = sources !! j)
                 /\ (forall j s, sources !! j = Some s ->
                       source_id s = source_id source -> (i <= j)%nat))
     | _ => st' = st /\ dispatched = false
     end.
Proof.
  cbn zeta. unfold updateSourceInStorage.
  destruct (wasm_sources st) as [| | sources] eqn:Hs;
    [cbn; rewrite Hs; auto | cbn; rewrite Hs; auto |].
  destruct (list_find _ sources) as [[i old]|] eqn:Hf.
  - apply list_find_Some in Hf as (Hi & Hid & Hfirst). cbn.
    assert (Hlt : (i < length sources)%nat) by (eapply lookup_lt_Some; exact Hi).
    assert (Hagain : list_find (fun s => source_id s = source_id source)
                       (<[i := source]> sources) = Some (i, source)).
    { apply list_find_Some. repeat apply conj.
      - apply list_lookup_insert_eq. exact Hlt.
      - reflexivity.
      - intros j y Hj Hji. rewrite list_lookup_insert_ne in Hj by lia. eauto. }
    rewrite Hagain. rewrite list_insert_insert_eq.
    repeat apply conj; try reflexivity.
    exists (<[i := source]> sources). repeat apply conj; try reflexivity.
    + rewrite list_fmap_insert. apply list_insert_id.
      rewrite list_lookup_fmap, Hi. cbn. congruence.
    + discriminate.
    + intros Hno. exfalso. apply (Hno old); [| exact Hid].
      apply list_elem_of_In. eapply list_elem_of_lookup_2. exact Hi.
    + discriminate.
    + intros _. exists i. repeat apply conj.
      * apply list_lookup_insert_eq. exact Hlt.
      * intros j Hj. apply list_lookup_insert_ne. congruence.
      * intros j s Hj Hsid. destruct (decide (i <= j)%nat) as [|Hn]; [assumption |].
        exfalso. apply (Hfirst j s Hj); [lia | exact Hsid].
  - cbn. rewrite Hs, Hf. repeat apply conj; try reflexivity.
    exists sources. repeat apply conj; try reflexivity; try discriminate.
    intros _ s Hin. apply list_find_None in Hf.
    rewrite Forall_forall in Hf. apply Hf. apply list_elem_of_In. exact Hin.
Qed.

(** The mirror's descriptor with a stamp is written over the stored
    one; a descriptor of an unknown id is not written. *)
Lemma stored_source_witness :
  let stamped := set_lastUpdated (Some (js "Tue, 14 Nov 2023 22:13:20 GMT")) mirror_source in
  updateSourceInStorage stamped sample_storage
  = ({| wasm_sources := Parsed [SourceDropdown.defaultSource 0; stamped; token_source];
        current_wasm_url := None |}, true)
  /\ updateSourceInStorage mirror_copy sample_storage = (sample_storage, false).
Proof.
  intros stamped. split.
  - destruct (stored_source_is_replaced_by_id stamped sample_storage) as (_ & Hagain & _).
    vm_compute in Hagain |- *. exact Hagain.
  - destruct (stored_source_is_replaced_by_id mirror_copy sample_storage) as (_ & Hagain & _).
    vm_compute in Hagain |- *. exact Hagain.
Defined.

Lemma nodup_fmap_inj {A B} (f : A -> B) (l : list A) a b :
  NoDup (f <$> l) -> In a l -> In b l -> f a = f b -> a = b.
Proof.
  induction l as [|x l IH]; cbn; intros Hn Ha Hb Hf; [contradiction |].
  apply NoDup_cons in Hn as [Hx Hn].
  destruct Ha as [-> | Ha], Hb as [-> | Hb]; try reflexivity.
  - exfalso. apply Hx. rewrite Hf. apply list_elem_of_fmap_2, list_elem_of_In. exact Hb.
  - exfalso. apply Hx. rewrite <- Hf. apply list_elem_of_fmap_2, list_elem_of_In. exact Ha.
  - auto.
Qed.

(** X20.  Selecting a stored source in the dropdown, when the callback
    leaves the storage alone: the URL of the source becomes the stored
    current URL, and the component's own listener then reads the storage
    again, so the source marked as current is the first stored source
    with that URL, which is the selected one when the stored URLs are
    distinct.  A component mounted afterwards marks the same source, and
    the engine created afterwards starts with the URL of the selected
    source. *)
Theorem selection_follows_the_url cb source st s srcs :
  wasm_sources st = Parsed srcs ->
  In source srcs ->
  (forall x t, cb x t = t) ->
  let st' := (SourceDropdown.handleSourceSelect cb source st s).1 in
  let s' := (SourceDropdown.handleSourceSelect cb source st s).2 in
  st' = {| wasm_sources := Parsed srcs; current_wasm_url := Some (url source) |}
  /\ SourceDropdown.sources s' = srcs
  /\ (exists cur,
        List.find (fun x => bool_decide (Some (url x) = Some (url source))) srcs = Some cur
        /\ url cur = url source
        /\ SourceDropdown.currentSourceId s' = source_id cur
        /\ (NoDup (url <$> srcs) -> cur = source))
  /\ (exists shown,
        SourceDropdown.currentSource s' = Some shown
        /\ source_id shown = SourceDropdown.currentSourceId s')
  /\ (forall now, SourceDropdown.loadSources now st' SourceDropdown.initial = s')
  /\ (forall now, url (wasmSource (initializeWasmSource now st')) = url source).
Proof.
  intros Hs Hin Hcb. cbn zeta. unfold SourceDropdown.handleSourceSelect. cbn.
  rewrite Hcb, Hs.
  destruct srcs as [|first rest]; [contradiction |].
  destruct (List.find (fun x => bool_decide (Some (url x) = Some (url source))) (first :: rest))
    as [cur|] eqn:Hf.
  2: { exfalso. pose proof (find_none _ _ Hf source Hin) as Hn. cbn in Hn.
       apply bool_decide_eq_false in Hn. congruence. }
  pose proof (find_some _ _ Hf) as [Hcin Hcu]. apply bool_decide_eq_true in Hcu.
  injection Hcu as Hcu.
  unfold SourceDropdown.handleStorageChange, SourceDropdown.loadSources,
    SourceDropdown.handleStorageChange, find_current. cbn [wasm_sources current_wasm_url].
  rewrite Hf. cbn [SourceDropdown.sources SourceDropdown.currentSourceId].
  repeat apply conj; try reflexivity.
  - exists cur. repeat apply conj; try reflexivity; [exact Hcu |].
    intros Hn. eapply nodup_fmap_inj; eassumption.
  - unfold SourceDropdown.currentSource.
    cbn [SourceDropdown.sources SourceDropdown.currentSourceId].
    destruct (List.find (fun x => bool_decide (source_id x = source_id cur)) (first :: rest))
      as [shown|] eqn:Hshown.
    + exists shown. split; [reflexivity |].
      apply find_some in Hshown as [_ Hid]. apply bool_decide_eq_true in Hid. exact Hid.
    + exfalso. pose proof (find_none _ _ Hshown cur Hcin) as Hn. cbn in Hn.
      apply bool_decide_eq_false in Hn. congruence.
  - intros now. unfold initializeWasmSource, find_current. cbn [wasm_sources current_wasm_url].
    rewrite Hf. unfold updateWasmSource.
    destruct (source_differs _ cur) eqn:Hd; [exact Hcu |].
    pose proof (proj1 (source_differs_false _ _) Hd) as (Hu & _). congruence.
Qed.

(** The source with the token is selected; then, with a second
    descriptor of the mirror's URL in the storage, that second one is
    selected and the first is marked. *)
Lemma selection_witness :
  let twice :=
    {| wasm_sources := Parsed [SourceDropdown.defaultSource 0; mirror_source; mirror_copy];
       current_wasm_url := None |} in
  SourceDropdown.currentSourceId
    (SourceDropdown.handleSourceSelect no_callback token_source sample_storage
       SourceDropdown.initial).2 = js "s1"
  /\ SourceDropdown.currentSourceId
       (SourceDropdown.handleSourceSelect no_callback mirror_copy twice
          SourceDropdown.initial).2 = js "m1"
  /\ url (wasmSource
            (initializeWasmSource 5
               (SourceDropdown.handleSourceSelect no_callback mirror_copy twice
                  SourceDropdown.initial).1))
     = js "https://mirror.example/zoo.wasm".
Proof.
  intros twice. repeat apply conj.
  - destruct (selection_follows_the_url no_callback token_source sample_storage
                SourceDropdown.initial _ eq_refl
                ltac:(right; right; left; reflexivity) ltac:(reflexivity))
      as (_ & _ & (cur & _ & _ & Hid & Hsame) & _).
    rewrite Hid, (Hsame ltac:(apply (bool_decide_unpack _); vm_compute; exact I)). reflexivity.
  - vm_compute. reflexivity.
  - apply (proj2 (proj2 (proj2 (proj2 (proj2
             (selection_follows_the_url no_callback mirror_copy twice SourceDropdown.initial _
                eq_refl ltac:(right; right; left; reflexivity) ltac:(reflexivity))))))).
Defined.
